(** * Terrain sampling in HribHabitat_csv-ndjson.py

    A shallow embedding of the terrain part of the observation processor:
    the Web-Mercator projector, the terrarium elevation decoder, the tile
    cache and fetcher, the 3x3 neighbourhood assembler, Horn's slope/aspect
    estimator and the per-observation loop that isolates failures.

    Python integers are [Z].  Python floats are kept behind the interface
    [PyFloat], which lists the float operations the script uses; the script
    is written once against that interface and read in two ways:
    - [B64]: IEEE-754 binary64 on Rocq's primitive floats, where signed
      zeros, rounding and the special cases of CPython's math module are as
      at run time, and the C library's transcendental functions are a
      parameter;
    - [Exact]: real numbers, where every operation is the mathematical one.

    Exceptions are values of [exn]; a call that may raise returns
    [exn + A], and code that mutates the tile cache or talks to the network
    threads a state through [M]. *)

From Stdlib Require Import ZArith QArith Lia List Bool Ascii String.
From Stdlib Require Import Floats.
From Stdlib Require Import Reals Lra Machin.
From stdpp Require Import gmap strings.

Local Open Scope Z_scope.

(** ** Python runtime *)

(** The exceptions the script can meet.  [KeyboardInterrupt] and
    [SystemExit] derive from [BaseException] only, so that
    [except Exception] does not catch them. *)
Inductive exn : Type :=
| ValueError
| TypeError
| KeyError
| IndexError
| ZeroDivisionError
| OverflowError
| RequestException
| HTTPError
| UnidentifiedImageError
| OSError
| AttributeError
| KeyboardInterrupt
| SystemExit.

Definition is_Exception (e : exn) : bool :=
  match e with
  | KeyboardInterrupt | SystemExit => false
  | _ => true
  end.

(** Calls that may raise. *)
Definition res (A : Type) : Type := (exn + A)%type.

Definition rbind {A B : Type} (r : res A) (k : A -> res B) : res B :=
  match r with
  | inl e => inl e
  | inr a => k a
  end.

(** Calls that may raise and that read or change a state [S].  The state
    reached when the exception is raised is kept, as in Python. *)
Definition M (S A : Type) : Type := S -> res A * S.

Definition ret {S A : Type} (a : A) : M S A := fun s => (inr a, s).

Definition raise {S A : Type} (e : exn) : M S A := fun s => (inl e, s).

Definition bind {S A B : Type} (m : M S A) (k : A -> M S B) : M S B :=
  fun s =>
    match m s with
    | (inl e, s') => (inl e, s')
    | (inr a, s') => k a s'
    end.

Definition lift {S A : Type} (r : res A) : M S A := fun s => (r, s).

Declare Scope py_scope.
Delimit Scope py_scope with py.
Notation "x <- m ;; k" := (bind m (fun x => k))
  (at level 100, m at next level, right associativity) : py_scope.
Notation "x <~ r ;; k" := (rbind r (fun x => k))
  (at level 100, r at next level, right associativity) : py_scope.

(** [for x in xs: body] threading an accumulator. *)
Fixpoint for_each {S A B : Type} (xs : list A) (body : A -> B -> M S B) (acc : B) : M S B :=
  match xs with
  | [] => ret acc
  | x :: rest => bind (body x acc) (fun acc' => for_each rest body acc')
  end.

(** ** The float operations the script uses *)

Class PyFloat (F : Type) : Type := {
  (** int to float, as mixed arithmetic converts its int operand *)
  fromZ : Z -> F;
  fadd : F -> F -> F;
  fsub : F -> F -> F;
  fmul : F -> F -> F;
  fneg : F -> F;
  (** [x / y]: ZeroDivisionError when [y] is zero *)
  fdiv : F -> F -> res F;
  (** [x ** 2]: OverflowError when the square overflows *)
  fsquare : F -> res F;
  (** [x < y] *)
  flt : F -> F -> bool;
  (** the math module *)
  m_sqrt : F -> res F;
  m_atan : F -> res F;
  m_atan2 : F -> F -> res F;
  m_tan : F -> res F;
  m_cos : F -> res F;
  m_log : F -> res F;
  m_pi : F;
  degToRad : F;
  radToDeg : F;
  (** the builtins [round(x, ndigits)], [round(x)] and [int(x)] *)
  py_round : F -> Z -> res F;
  py_round0 : F -> res Z;
  py_int : F -> res Z;
  (** the float literal [m * 10 ** e] written in decimal *)
  fdec : Z -> Z -> F
}.

Definition m_degrees {F : Type} `{PyFloat F} (x : F) : F := fmul x radToDeg.
Definition m_radians {F : Type} `{PyFloat F} (x : F) : F := fmul x degToRad.

(** ** Constants of the script *)

Definition ZOOM_LEVEL : Z := 15.
Definition TILE_SIZE : Z := 256.

(** ** Terrain tile math *)

Section TerrainMath.
Context {F : Type} `{PyFloat F}.
Local Open Scope py_scope.

(** [2 ** z]: an int for [z >= 0], the float [1 / 2 ** -z] below. *)
Definition pow2_zoom (z : Z) : res F :=
  if 0 <=? z then inr (fromZ (2 ^ z)) else fdiv (fromZ 1) (fromZ (2 ^ (- z))).

Definition latlon_to_pixel (lat lon : F) (z : Z) : res (Z * Z) :=
  let lat_rad := m_radians lat in
  n <~ pow2_zoom z ;;
  x0 <~ fdiv (fadd lon (fromZ 180)) (fromZ 360) ;;
  let x := fmul (fmul x0 n) (fromZ TILE_SIZE) in
  t <~ m_tan lat_rad ;;
  c <~ m_cos lat_rad ;;
  sec <~ fdiv (fromZ 1) c ;;
  l <~ m_log (fadd t sec) ;;
  q <~ fdiv l m_pi ;;
  y0 <~ fdiv (fsub (fromZ 1) q) (fromZ 2) ;;
  let y := fmul (fmul y0 n) (fromZ TILE_SIZE) in
  px <~ py_int x ;;
  py <~ py_int y ;;
  inr (px, py).

Definition decode_terrarium (r g b : Z) : res F :=
  t <~ fdiv (fromZ b) (fromZ 256) ;;
  inr (fsub (fadd (fromZ (r * 256 + g)) t) (fromZ 32768)).

(** A grid is a list of rows; [e[i][j]] raises IndexError outside it. *)
Definition at2 (e : list (list F)) (i j : nat) : res F :=
  match e !! i with
  | None => inl IndexError
  | Some row =>
      match row !! j with
      | None => inl IndexError
      | Some v => inr v
      end
  end.

Definition calculate_slope_aspect (e : list (list F)) : res (F * F) :=
  e02 <~ at2 e 0 2 ;; e12 <~ at2 e 1 2 ;; e22 <~ at2 e 2 2 ;;
  e00 <~ at2 e 0 0 ;; e10 <~ at2 e 1 0 ;; e20 <~ at2 e 2 0 ;;
  dzdx <~ fdiv (fsub (fadd (fadd e02 (fmul (fromZ 2) e12)) e22)
                     (fadd (fadd e00 (fmul (fromZ 2) e10)) e20)) (fromZ 8) ;;
  f20 <~ at2 e 2 0 ;; f21 <~ at2 e 2 1 ;; f22 <~ at2 e 2 2 ;;
  f00 <~ at2 e 0 0 ;; f01 <~ at2 e 0 1 ;; f02 <~ at2 e 0 2 ;;
  dzdy <~ fdiv (fsub (fadd (fadd f20 (fmul (fromZ 2) f21)) f22)
                     (fadd (fadd f00 (fmul (fromZ 2) f01)) f02)) (fromZ 8) ;;
  sx <~ fsquare dzdx ;;
  sy <~ fsquare dzdy ;;
  root <~ m_sqrt (fadd sx sy) ;;
  at_ <~ m_atan root ;;
  let slope := m_degrees at_ in
  a2 <~ m_atan2 dzdy (fneg dzdx) ;;
  let aspect := m_degrees a2 in
  let aspect := if flt aspect (fromZ 0) then fadd aspect (fromZ 360) else aspect in
  rs <~ py_round slope 2 ;;
  ra <~ py_round aspect 1 ;;
  inr (rs, ra).

(** The grid literal [[a b c], [d e f], [g h i]], row 0 first. *)
Definition grid3 (a b c d e f g h i : F) : list (list F) :=
  [[a; b; c]; [d; e; f]; [g; h; i]].
End TerrainMath.

(** ** Neighbourhood wrap

    The four boundary tests of [get_elevation_grid], in the order of the
    source: west, north, east, south.  The result is the tile to read and
    the pixel inside it. *)
Definition wrap_neighbor (tx ty ix iy dx dy : Z) : Z * Z * Z * Z :=
  let x := ix + dx in
  let y := iy + dy in
  let ttx := tx in
  let tty := ty in
  let '(ttx, x) := if x <? 0 then (ttx - 1, x + TILE_SIZE) else (ttx, x) in
  let '(tty, y) := if y <? 0 then (tty - 1, y + TILE_SIZE) else (tty, y) in
  let '(ttx, x) := if x >=? TILE_SIZE then (ttx + 1, x - TILE_SIZE) else (ttx, x) in
  let '(tty, y) := if y >=? TILE_SIZE then (tty + 1, y - TILE_SIZE) else (tty, y) in
  (ttx, tty, x, y).

(** ** Tiles, the cache and the network *)

(** A decoded RGB image: its size and its 8-bit channels. *)
Record image : Type := {
  width : Z;
  height : Z;
  pix : Z -> Z -> Byte.byte * Byte.byte * Byte.byte
}.

Definition channel (b : Byte.byte) : Z := Z.of_N (Byte.to_N b).

(** [tile.load()[x, y]]: Pillow counts a negative index from the far edge
    and raises IndexError outside the image. *)
Definition pixel_access (im : image) (x y : Z) : res (Z * Z * Z) :=
  let x := if x <? 0 then width im + x else x in
  let y := if y <? 0 then height im + y else y in
  if (0 <=? x) && (x <? width im) && (0 <=? y) && (y <? height im) then
    let '(r, g, b) := pix im x y in inr (channel r, channel g, channel b)
  else inl IndexError.

(** A tile object: the image and the identity of the Python object. *)
Record tile : Type := { tid : nat; img : image }.

Definition key : Type := (Z * Z * Z)%type.

Record response : Type := { status_code : Z; content : list Byte.byte }.

(** The remote tile store and the image decoder.  [http_get n k] answers
    the request for tile [k] sent after [n] earlier requests; either call
    may raise. *)
Record remote : Type := {
  http_get : nat -> key -> res response;
  image_open : list Byte.byte -> res image
}.

(** The mutable world of the terrain code: the cache dict, the requests
    sent so far (oldest first) and the number of tile objects created. *)
Record world : Type := {
  cache : gmap key tile;
  sent : list key;
  objects : nat
}.

(** [r.raise_for_status()] *)
Definition raise_for_status (r : response) : res unit :=
  if (400 <=? status_code r) && (status_code r <? 600) then inl HTTPError else inr tt.

Section Tiles.
Variable net : remote.
Context {F : Type} `{PyFloat F}.
Local Open Scope py_scope.

Definition fetch_tile (z x y : Z) : M world tile :=
  fun w =>
    let k := (z, x, y) in
    match cache w !! k with
    | Some t => (inr t, w)
    | None =>
        let w1 := {| cache := cache w; sent := sent w ++ [k]; objects := objects w |} in
        match http_get net (length (sent w)) k with
        | inl e => (inl e, w1)
        | inr r =>
            match raise_for_status r with
            | inl e => (inl e, w1)
            | inr _ =>
                match image_open net (content r) with
                | inl e => (inl e, w1)
                | inr im =>
                    let t := {| tid := objects w; img := im |} in
                    (inr t, {| cache := <[k := t]> (cache w);
                               sent := sent w ++ [k];
                               objects := S (objects w) |})
                end
            end
        end
    end.

(** [grid[i][j] = v] on a list of rows. *)
Definition set2 (g : list (list F)) (i j : nat) (v : F) : list (list F) :=
  alter (fun row => <[j := v]> row) i g.

(** The body of the two loops for one offset [(dx, dy)]. *)
Definition sample (z tx ty ix iy : Z) (dy dx : Z) (grid : list (list F)) : M world (list (list F)) :=
  let '(ttx, tty, x, y) := wrap_neighbor tx ty ix iy dx dy in
  t <- fetch_tile z ttx tty ;;
  p <- lift (pixel_access (img t) x y) ;;
  let '(r, g, b) := p in
  v <- lift (decode_terrarium r g b) ;;
  ret (set2 grid (Z.to_nat (dy + 1)) (Z.to_nat (dx + 1)) v).

Definition get_elevation_grid (lat lon : F) (z : Z) : M world (list (list F)) :=
  p <- lift (latlon_to_pixel lat lon z) ;;
  let '(px, py) := p in
  let tx := px / TILE_SIZE in
  let ty := py / TILE_SIZE in
  let ix := px mod TILE_SIZE in
  let iy := py mod TILE_SIZE in
  let grid := repeat (repeat (fromZ 0) 3) 3 in
  for_each [-1; 0; 1]
    (fun dy g => for_each [-1; 0; 1] (fun dx g' => sample z tx ty ix iy dy dx g') g)
    grid.
End Tiles.

(** ** Binary64 reading of the float interface *)

Module B64.
Local Open Scope float_scope.

(** The C library functions CPython's math module and float power call.
    [lm_pow2 x] is [pow(x, 2.0)]. *)
Record libm : Type := {
  lm_atan : float -> float;
  lm_atan2 : float -> float -> float;
  lm_pow2 : float -> float;
  lm_tan : float -> float;
  lm_cos : float -> float;
  lm_log : float -> float
}.

(** int to float: round to nearest, ties to even. *)
Definition of_Z (z : Z) : float := SF2Prim (binary_normalize prec emax z 0 false).

(** [Py_MATH_PI], the double nearest to pi. *)
Definition Py_MATH_PI : float := 0x1.921fb54442d18p+1.

Definition copysign (x y : float) : float := if get_sign y then - abs x else abs x.

(** [float_div] *)
Definition div (x y : float) : res float :=
  if y =? 0 then inl ZeroDivisionError else inr (x / y).

(** [math_1] of mathmodule.c with [can_overflow = 0]: a NaN result of an
    argument that is not NaN, or an infinite result of a finite argument,
    is a domain error. *)
Definition math_1 (f : float -> float) (x : float) : res float :=
  let r := f x in
  if is_nan r && negb (is_nan x) then inl ValueError
  else if is_infinity r && is_finite x then inl ValueError
  else inr r.

(** [m_log] of mathmodule.c under [math_1]. *)
Definition log (lm : libm) (x : float) : res float :=
  math_1 (fun x =>
    if is_finite x then
      if 0 <? x then lm_log lm x
      else if x =? 0 then neg_infinity else nan
    else if is_nan x then x
    else if 0 <? x then x
    else nan) x.

(** [m_atan2] of mathmodule.c: the special cases are decided before the
    C library is called. *)
Definition m_atan2_c (lm : libm) (y x : float) : float :=
  if is_nan x || is_nan y then nan
  else if is_infinity y then
    if is_infinity x then
      if negb (get_sign x) then copysign (0.25 * Py_MATH_PI) y
      else copysign (0.75 * Py_MATH_PI) y
    else copysign (0.5 * Py_MATH_PI) y
  else if is_infinity x || (y =? 0) then
    if negb (get_sign x) then copysign 0 y
    else copysign Py_MATH_PI y
  else lm_atan2 lm y x.

(** [math_2] of mathmodule.c around [m_atan2]. *)
Definition atan2 (lm : libm) (y x : float) : res float :=
  let r := m_atan2_c lm y x in
  if is_nan r && negb (is_nan x) && negb (is_nan y) then inl ValueError
  else if is_infinity r && is_finite x && is_finite y then inl OverflowError
  else inr r.

(** [float_pow] at exponent 2. *)
Definition square (lm : libm) (x : float) : res float :=
  if is_nan x then inr x
  else if is_infinity x then inr infinity
  else
    let r := lm_pow2 lm x in
    if is_infinity r then inl OverflowError else inr r.

(** [math.sqrt] *)
Definition sqrt (x : float) : res float := math_1 PrimFloat.sqrt x.

(** Round [n / d] to the nearest integer, ties to even ([d > 0]). *)
Definition round_half_even_div (n d : Z) : Z :=
  let q := (n / d)%Z in
  let r := (n mod d)%Z in
  match (2 * r ?= d)%Z with
  | Lt => q
  | Gt => (q + 1)%Z
  | Eq => if Z.even q then q else (q + 1)%Z
  end.

(** The binary64 value nearest to [num / den], ties to even. *)
Definition nearest (s : bool) (num den : positive) : spec_float :=
  let '(mz, ez, lz) := SFdiv_core_binary prec emax (Zpos num) 0 (Zpos den) 0 in
  binary_round_aux prec emax s mz ez lz.

(** The magnitude of a finite float, [m * 2 ^ e], as a fraction. *)
Definition fraction (m : positive) (e : Z) : Z * Z :=
  if (0 <=? e)%Z then (Zpos m * 2 ^ e, 1)%Z else (Zpos m, 2 ^ (- e))%Z.

(** [round(x, ndigits)]: the decimal with [ndigits] digits nearest to the
    exact value of [x], ties to even, read back as a double. *)
Definition round (x : float) (ndigits : Z) : res float :=
  match Prim2SF x with
  | S754_finite s m e =>
      let '(num, den) := fraction m e in
      let '(num, den) :=
        if (0 <=? ndigits)%Z then (num * 10 ^ ndigits, den)%Z
        else (num, den * 10 ^ (- ndigits))%Z in
      match round_half_even_div num den with
      | Zpos q =>
          let r :=
            if (0 <=? ndigits)%Z then nearest s q (Z.to_pos (10 ^ ndigits))
            else binary_normalize prec emax
                   (cond_Zopp s (Zpos q * 10 ^ (- ndigits))) 0 false in
          match r with
          | S754_infinity _ => inl OverflowError
          | _ => inr (SF2Prim r)
          end
      | _ => inr (if s then neg_zero else zero)
      end
  | _ => inr x
  end.

(** [round(x)]: the nearest int, ties to even. *)
Definition round0 (x : float) : res Z :=
  match Prim2SF x with
  | S754_nan => inl ValueError
  | S754_infinity _ => inl OverflowError
  | S754_zero _ => inr 0%Z
  | S754_finite s m e =>
      let '(num, den) := fraction m e in
      inr (cond_Zopp s (round_half_even_div num den))
  end.

(** [int(x)]: truncation towards zero. *)
Definition int (x : float) : res Z :=
  match Prim2SF x with
  | S754_nan => inl ValueError
  | S754_infinity _ => inl OverflowError
  | S754_zero _ => inr 0%Z
  | S754_finite s m e =>
      let '(num, den) := fraction m e in
      inr (cond_Zopp s (num / den))
  end.

(** A decimal literal with few digits: both [m] and the power of ten
    are doubles, and one correctly rounded operation gives the value. *)
Definition dec (m e : Z) : float :=
  if (0 <=? e)%Z then of_Z (m * 10 ^ e) else of_Z m / of_Z (10 ^ (- e)).

#[export] Instance float_ops (lm : libm) : PyFloat float := {|
  fromZ := of_Z;
  fadd := PrimFloat.add;
  fsub := PrimFloat.sub;
  fmul := PrimFloat.mul;
  fneg := PrimFloat.opp;
  fdiv := div;
  fsquare := square lm;
  flt := PrimFloat.ltb;
  m_sqrt := sqrt;
  m_atan := math_1 (lm_atan lm);
  m_atan2 := atan2 lm;
  m_tan := math_1 (lm_tan lm);
  m_cos := math_1 (lm_cos lm);
  m_log := log lm;
  m_pi := Py_MATH_PI;
  degToRad := Py_MATH_PI / 180;
  radToDeg := 180 / Py_MATH_PI;
  py_round := round;
  py_round0 := round0;
  py_int := int;
  fdec := dec
|}.

(** What C99 Annex F fixes for the zero arguments the estimator meets. *)
Definition annex_f (lm : libm) : Prop :=
  lm_atan lm 0 = 0 /\ lm_pow2 lm 0 = 0.
End B64.

(** ** Exact reading of the float interface

    Every operation is the real-number one.  The reals have a single zero,
    while [math.atan2] at the origin returns 0 or pi (up to sign) according
    to the signs of its zero arguments; its value there is the parameter
    [origin]. *)

Module Exact.
Local Open Scope R_scope.

Definition ltb (x y : R) : bool := if Rlt_dec x y then true else false.

Definition div (x y : R) : res R :=
  if Req_dec_T y 0 then inl ZeroDivisionError else inr (x / y).

Definition sqrt (x : R) : res R :=
  if Rlt_dec x 0 then inl ValueError else inr (R_sqrt.sqrt x).

Definition log (x : R) : res R :=
  if Rle_dec x 0 then inl ValueError else inr (ln x).

Definition atan2 (origin : R) (y x : R) : R :=
  if Rlt_dec 0 x then atan (y / x)
  else if Rlt_dec x 0 then
    if Rle_dec 0 y then atan (y / x) + PI else atan (y / x) - PI
  else if Rlt_dec 0 y then PI / 2
  else if Rlt_dec y 0 then - (PI / 2)
  else origin.

(** The integer nearest to [x], ties to even. *)
Definition round_half_even (x : R) : Z :=
  let f := Zfloor x in
  let d := x - IZR f in
  if Rlt_dec d (1 / 2) then f
  else if Rlt_dec (1 / 2) d then (f + 1)%Z
  else if Z.even f then f else (f + 1)%Z.

Definition round (x : R) (ndigits : Z) : res R :=
  inr (IZR (round_half_even (x * powerRZ 10 ndigits)) / powerRZ 10 ndigits).

Definition round0 (x : R) : res Z := inr (round_half_even x).

Definition int (x : R) : res Z :=
  inr (if Rle_dec 0 x then Zfloor x else (- Zfloor (- x))%Z).

Definition dec (m e : Z) : R := IZR m * powerRZ 10 e.

#[export] Instance real_ops (origin : R) : PyFloat R := {|
  fromZ := IZR;
  fadd := Rplus;
  fsub := Rminus;
  fmul := Rmult;
  fneg := Ropp;
  fdiv := div;
  fsquare := fun x => inr (x * x);
  flt := ltb;
  m_sqrt := sqrt;
  m_atan := fun x => inr (atan x);
  m_atan2 := fun y x => inr (atan2 origin y x);
  m_tan := fun x => inr (tan x);
  m_cos := fun x => inr (cos x);
  m_log := log;
  m_pi := PI;
  degToRad := PI / 180;
  radToDeg := 180 / PI;
  py_round := round;
  py_round0 := round0;
  py_int := int;
  fdec := dec
|}.
End Exact.

(** ** A reference C library

    Textbook series for the functions of [B64.libm], in binary64
    arithmetic.  It agrees with C99 Annex F on the special values and is
    accurate to a few units in the last place elsewhere; it stands for the
    platform library wherever a concrete one is needed. *)

Module Ref.
Local Open Scope float_scope.

(** [c0 + x * (c1 + x * (c2 + ...))] *)
Fixpoint horner (cs : list float) (x : float) : float :=
  match cs with
  | [] => 0
  | c :: rest => c + x * horner rest x
  end.

(** [n] coefficients [sign / k, - sign / (k + 2), ...] *)
Fixpoint alternating (n : nat) (k : Z) (sign : float) : list float :=
  match n with
  | O => []
  | S n' => sign / B64.of_Z k :: alternating n' (k + 2) (- sign)
  end.

(** [n] coefficients [1 / k, 1 / (k + 2), ...] *)
Fixpoint odd_recips (n : nat) (k : Z) : list float :=
  match n with
  | O => []
  | S n' => 1 / B64.of_Z k :: odd_recips n' (k + 2)
  end.

(** [n] coefficients [c, - c / ((k+1)(k+2)), ...] of sine and cosine *)
Fixpoint factorials (n : nat) (k : Z) (c : float) : list float :=
  match n with
  | O => []
  | S n' => c :: factorials n' (k + 2) (- c / B64.of_Z ((k + 1) * (k + 2)))
  end.

Definition half_pi : float := 0x1.921fb54442d18p+0.
Definition half_pi_low : float := 0x1.1a62633145c07p-54.
Definition ln2 : float := 0x1.62e42fefa39efp-1.

(** [atan t = 2 * atan (t / (1 + sqrt (1 + t * t)))] *)
Definition halve (t : float) : float := t / (1 + PrimFloat.sqrt (1 + t * t)).

Definition atan_unit (t : float) : float :=
  let u := halve (halve (halve t)) in
  8 * (u * horner (alternating 12 1 1) (u * u)).

Definition atan (x : float) : float :=
  if is_nan x then x
  else if x =? 0 then x
  else
    let a := abs x in
    let r := if a <=? 1 then atan_unit a else half_pi - atan_unit (1 / a) in
    B64.copysign r x.

Definition atan2 (y x : float) : float :=
  if x =? 0 then B64.copysign half_pi y
  else
    let r := atan (y / x) in
    if 0 <? x then r
    else if 0 <? y then r + B64.Py_MATH_PI
    else r - B64.Py_MATH_PI.

Definition pow2 (x : float) : float := x * x.

(** Sine and cosine of [x], after reduction to a quarter turn *)
Definition sincos (x : float) : float * float :=
  match B64.round0 (x * (2 / B64.Py_MATH_PI)) with
  | inl _ => (nan, nan)
  | inr k =>
      let kf := B64.of_Z k in
      let r := (x - kf * half_pi) - kf * half_pi_low in
      let s := r * horner (factorials 11 1 1) (r * r) in
      let c := horner (factorials 11 0 1) (r * r) in
      match (k mod 4)%Z with
      | 0%Z => (s, c)
      | 1%Z => (c, - s)
      | 2%Z => (- s, - c)
      | _ => (- c, s)
      end
  end.

Definition cos (x : float) : float := snd (sincos x).

Definition tan (x : float) : float := let '(s, c) := sincos x in s / c.

Definition log (x : float) : float :=
  if is_nan x then x
  else if x <=? 0 then nan
  else if is_infinity x then x
  else
    let '(m, e) := Z.frexp x in
    let '(m, e) := if m <? 0x1.6a09e667f3bcdp-1 then (2 * m, (e - 1)%Z) else (m, e) in
    let s := (m - 1) / (m + 1) in
    B64.of_Z e * ln2 + 2 * (s * horner (odd_recips 14 1) (s * s)).

Definition libm : B64.libm :=
  {| B64.lm_atan := atan;
     B64.lm_atan2 := atan2;
     B64.lm_pow2 := pow2;
     B64.lm_tan := tan;
     B64.lm_cos := cos;
     B64.lm_log := log |}.
End Ref.

(** ** The enrichment pipeline *)

Local Open Scope string_scope.

(** Python strings are [string]: the characters below 256. *)

(** [s.startswith(p)] *)
Definition startswith (p s : string) : bool := String.prefix p s.

(** [s.split(" ")[0]]: the characters before the first space. *)
Fixpoint first_field (s : string) : string :=
  match s with
  | EmptyString => EmptyString
  | String c rest =>
      if Ascii.eqb c " "%char then EmptyString else String c (first_field rest)
  end.

(** [s] without its first [n] characters. *)
Fixpoint drop_chars (n : nat) (s : string) : string :=
  match n, s with
  | O, _ => s
  | S n', String _ rest => drop_chars n' rest
  | S _, EmptyString => EmptyString
  end.

(** [s.replace(old, new)] for a non-empty [old]: the occurrences are
    replaced from the left and do not overlap. *)
Fixpoint replace_fuel (fuel : nat) (old new s : string) : string :=
  match fuel with
  | O => s
  | S fuel' =>
      match s with
      | EmptyString => EmptyString
      | String c rest =>
          if String.prefix old s
          then new ++ replace_fuel fuel' old new (drop_chars (String.length old) s)
          else String c (replace_fuel fuel' old new rest)
      end
  end.

Definition replace (old new s : string) : string :=
  replace_fuel (String.length s) old new s.

(** JSON values as [r.json()] returns them. *)
#[warnings="-register-all"]
Inductive json (F : Type) : Type :=
| JNull
| JBool (b : bool)
| JInt (z : Z)
| JFloat (x : F)
| JStr (s : string)
| JList (l : list (json F))
| JDict (l : list (string * json F)).

Arguments JNull {F}.
Arguments JBool {F} b.
Arguments JInt {F} z.
Arguments JFloat {F} x.
Arguments JStr {F} s.
Arguments JList {F} l.
Arguments JDict {F} l.

(** [d.get(k)] on the items of a dict. *)
Fixpoint assoc {A : Type} (k : string) (l : list (string * A)) : option A :=
  match l with
  | [] => None
  | (k', v) :: rest => if String.eqb k k' then Some v else assoc k rest
  end.

(** [v[k]] for a string key. *)
Definition subscript_key {F : Type} (v : json F) (k : string) : res (json F) :=
  match v with
  | JDict l =>
      match assoc k l with
      | Some x => inr x
      | None => inl KeyError
      end
  | _ => inl TypeError
  end.

(** [v[0]] *)
Definition subscript_zero {F : Type} (v : json F) : res (json F) :=
  match v with
  | JList [] => inl IndexError
  | JList (x :: _) => inr x
  | JStr EmptyString => inl IndexError
  | JStr (String c _) => inr (JStr (String c EmptyString))
  | JDict _ => inl KeyError
  | _ => inl TypeError
  end.

(** [v.get(k, [])] *)
Definition dict_get_or_empty {F : Type} (v : json F) (k : string) : res (json F) :=
  match v with
  | JDict l =>
      match assoc k l with
      | Some x => inr x
      | None => inr (JList [])
      end
  | _ => inl AttributeError
  end.

(** An HTTP answer with a JSON body; [r.json()] may raise. *)
Record jresponse (F : Type) : Type := {
  j_status : Z;
  j_json : res (json F)
}.

Arguments j_status {F} _.
Arguments j_json {F} _.

(** One row of [csv.DictReader]: a field is a string, or None when the
    line is short. *)
Definition row : Type := gmap string (option string).

(** The collaborators of the pipeline.  The two Open-Meteo calls are
    answered according to the number of calls made before. *)
Record services (F : Type) : Type := {
  float_of_string : string -> res F;
  strptime : string -> res Z;
  elevation_api : nat -> F -> F -> res (jresponse F);
  archive_api : nat -> F -> F -> Z -> Z -> res (jresponse F);
  archive_url : F -> F -> Z -> Z -> string;
  format_coordinates : F -> F -> string;
  json_dumps : json F -> res string;
  file_write : list string -> string -> res unit;
  tiles : remote
}.

Arguments float_of_string {F} _.
Arguments strptime {F} _.
Arguments elevation_api {F} _.
Arguments archive_api {F} _.
Arguments archive_url {F} _.
Arguments format_coordinates {F} _.
Arguments json_dumps {F} _.
Arguments file_write {F} _.
Arguments tiles {F} _.

(** The state of one batch: the terrain world, the number of Open-Meteo
    calls, the lines written to the output file, the exceptions reported
    through [tqdm.write], the progress bar and the number of sleeps. *)
Record run : Type := {
  terrain : world;
  calls : nat;
  out : list string;
  log : list exn;
  bar : nat;
  naps : nat
}.

Definition DAYS : Z := 14%Z.

Definition SOIL_VARS : list string :=
  [ "soil_temperature_0_to_7cm_mean";
    "soil_temperature_7_to_28cm_mean";
    "soil_temperature_28_to_100cm_mean";
    "soil_temperature_0_to_100cm_mean";
    "soil_moisture_0_to_7cm_mean";
    "soil_moisture_7_to_28cm_mean";
    "soil_moisture_28_to_100cm_mean";
    "soil_moisture_0_to_100cm_mean" ].

Section Pipeline.
Context {F : Type} `{PyFloat F}.
Variable env : services F.
Local Open Scope py_scope.

Definition METERS_TO_FEET : F := fdec 328084%Z (-5)%Z.

(** [row[k]] *)
Definition field (r : row) (k : string) : res (option string) :=
  match r !! k with
  | Some v => inr v
  | None => inl KeyError
  end.

(** [float(v)] *)
Definition to_float (v : option string) : res F :=
  match v with
  | None => inl TypeError
  | Some s => float_of_string env s
  end.

(** [row["observed_on"] or row["created_at"].split(" ")[0]] *)
Definition date_string (r : row) : res string :=
  o <~ field r "observed_on" ;;
  match o with
  | Some (String c rest) => inr (String c rest)
  | _ =>
      c <~ field r "created_at" ;;
      match c with
      | None => inl AttributeError
      | Some s => inr (first_field s)
      end
  end.

(** [v * METERS_TO_FEET] for a JSON value [v] *)
Definition times_feet (v : json F) : res F :=
  match v with
  | JInt z => inr (fmul (fromZ z) METERS_TO_FEET)
  | JFloat x => inr (fmul x METERS_TO_FEET)
  | JBool b => inr (fmul (fromZ (if b then 1%Z else 0%Z)) METERS_TO_FEET)
  | _ => inl TypeError
  end.

Definition tick : M run nat :=
  fun s => (inr (calls s),
            {| terrain := terrain s; calls := S (calls s); out := out s;
               log := log s; bar := bar s; naps := naps s |}).

(** [r.raise_for_status()] then [r.json()] *)
Definition checked_json (r : jresponse F) : res (json F) :=
  if (400 <=? j_status r)%Z && (j_status r <? 600)%Z then inl HTTPError else j_json r.

Definition get_elevation (lat lon : F) : M run Z :=
  n <- tick ;;
  r <- lift (elevation_api env n lat lon) ;;
  lift (j <~ checked_json r ;;
        e <~ subscript_key j "elevation" ;;
        e0 <~ subscript_zero e ;;
        ft <~ times_feet e0 ;;
        py_round0 ft).

(** [end_date - timedelta(days=DAYS - 1)] on ordinals: dates before
    year 1 do not exist. *)
Definition start_date (end_date : Z) : res Z :=
  let d := (end_date - (DAYS - 1))%Z in
  if (d <? 1)%Z then inl OverflowError else inr d.

Definition fetch_soil_data (lat lon : F) (end_date : Z) : M run (json F * string) :=
  start <- lift (start_date end_date) ;;
  let api_url := archive_url env lat lon start end_date in
  n <- tick ;;
  r <- lift (archive_api env n lat lon start end_date) ;;
  j <- lift (checked_json r) ;;
  ret (j, api_url).

(** The terrain calls run on the [terrain] part of the state. *)
Definition on_terrain {A : Type} (m : M world A) : M run A :=
  fun s =>
    let '(r, w) := m (terrain s) in
    (r, {| terrain := w; calls := calls s; out := out s;
           log := log s; bar := bar s; naps := naps s |}).

(** One of the two dict comprehensions over [SOIL_VARS]. *)
Fixpoint soil_series (pre : string) (soil : json F) (vars : list string)
  : res (list (string * json F)) :=
  match vars with
  | [] => inr []
  | k :: rest =>
      if startswith pre k then
        daily <~ subscript_key soil "daily" ;;
        v <~ dict_get_or_empty daily k ;;
        tl <~ soil_series pre soil rest ;;
        inr ((replace "_mean" "" (replace pre "" k), v) :: tl)
      else soil_series pre soil rest
  end.

Definition json_of_field (v : option string) : json F :=
  match v with
  | None => JNull
  | Some s => JStr s
  end.

(** The statements inside [try], up to the record. *)
Definition build_record (r : row) : M run (json F) :=
  la <- lift (field r "latitude") ;;
  lat <- lift (to_float la) ;;
  lo <- lift (field r "longitude") ;;
  lon <- lift (to_float lo) ;;
  ds <- lift (date_string r) ;;
  obs_date <- lift (strptime env ds) ;;
  elevation_ft <- get_elevation lat lon ;;
  sd <- fetch_soil_data lat lon obs_date ;;
  let '(soil, api_url) := sd in
  grid <- on_terrain (get_elevation_grid (tiles env) lat lon ZOOM_LEVEL) ;;
  centre <- lift (at2 grid 1 1) ;;
  aws_ft <- lift (py_round0 (fmul centre METERS_TO_FEET)) ;;
  sa <- lift (calculate_slope_aspect grid) ;;
  let '(slope, aspect) := sa in
  url <- lift (field r "url") ;;
  daily <- lift (subscript_key soil "daily") ;;
  dates <- lift (subscript_key daily "time") ;;
  temps <- lift (soil_series "soil_temperature_" soil SOIL_VARS) ;;
  moist <- lift (soil_series "soil_moisture_" soil SOIL_VARS) ;;
  ret (JDict [ ("observation_url", json_of_field url);
               ("date_used", JStr ds);
               ("coordinates", JStr (format_coordinates env lat lon));
               ("elevation_ft", JInt elevation_ft);
               ("dates", dates);
               ("soil_temperature", JDict temps);
               ("soil_moisture", JDict moist);
               ("open_meteo_api_url", JStr api_url);
               ("aws_elevation_ft", JInt aws_ft);
               ("slope_deg", JFloat slope);
               ("slope_aspect_deg", JFloat aspect) ]).

Definition write_line (line : string) : M run unit :=
  fun s =>
    match file_write env (out s) line with
    | inl e => (inl e, s)
    | inr _ => (inr tt, {| terrain := terrain s; calls := calls s;
                           out := out s ++ [line]; log := log s;
                           bar := bar s; naps := naps s |})
    end.

(** The body of [try]. *)
Definition try_row (r : row) : M run unit :=
  record <- build_record r ;;
  text <- lift (json_dumps env record) ;;
  write_line (text ++ String (Ascii.ascii_of_nat 10) EmptyString).

(** [tqdm.write] of the failure, for the exceptions [except Exception]
    catches. *)
Definition report (e : exn) : M run unit :=
  fun s => (inr tt, {| terrain := terrain s; calls := calls s; out := out s;
                       log := log s ++ [e]; bar := bar s; naps := naps s |}).

(** [time.sleep(API_DELAY)] and [pbar.update(1)] *)
Definition pace : M run unit :=
  fun s => (inr tt, {| terrain := terrain s; calls := calls s; out := out s;
                       log := log s; bar := S (bar s); naps := S (naps s) |}).

(** One turn of [for row in rows]. *)
Definition handle_row (r : row) : M run unit :=
  fun s =>
    match try_row r s with
    | (inr _, s1) => pace s1
    | (inl e, s1) =>
        if is_Exception e then bind (report e) (fun _ => pace) s1
        else (inl e, s1)
    end.

Definition process_rows (rows : list row) : M run unit :=
  for_each rows (fun r _ => handle_row r) tt.
End Pipeline.

Local Close Scope string_scope.

(** ** Predicates used in the statements *)



Definition in_tile (i : Z) : Prop := 0 <= i < TILE_SIZE.

Definition offset (d : Z) : Prop := -1 <= d <= 1.

(** *** Exact binary64 values

    [shl q n] is [q * 2 ^ n]; [canon s q e] is the canonical binary64
    representation of the value [(-1)^s * q * 2 ^ e] when [q] has at most
    53 bits, and [dyadic K e] that of [K * 2 ^ e]. *)
Definition shl (q : positive) (n : Z) : positive :=
  match n with Zpos d => Pos.iter xO q d | _ => q end.

Definition canon (s : bool) (q : positive) (e : Z) : spec_float :=
  let d := 53 - Zpos (digits2_pos q) in
  S754_finite s (shl q d) (e - d).

Definition exact_rec (m : positive) : shr_record :=
  {| shr_m := Zpos m; shr_r := false; shr_s := false |}.

Definition dyadic (K e : Z) : spec_float :=
  match K with
  | Z0 => S754_zero false
  | Zpos q => canon false q e
  | Zneg q => canon true q e
  end.

Definition signed (s : bool) (q : positive) : Z := cond_Zopp s (Zpos q).

(** The exact value of a finite float, as a fraction. *)
Definition to_Q (x : float) : option Q :=
  match Prim2SF x with
  | S754_zero _ => Some (0 # 1)
  | S754_finite s m e =>
      let '(n, d) := B64.fraction m e in Some (cond_Zopp s n # Z.to_pos d)
  | _ => None
  end.

(** [x] is the float whose value is [K * 2 ^ e]. *)
Definition is_dyadic (x : float) (K e : Z) : Prop := Prim2SF x = dyadic K e.

(** The float quotient [b / 256] is the exact one for every byte [b]. *)
Definition byte_quotients_exact : bool :=
  forallb (fun b => PrimFloat.Leibniz.eqb (B64.of_Z b / B64.of_Z 256)%float
                                          (SF2Prim (dyadic b (-8))))
          (map Z.of_nat (seq 0 256)).

(** The value of an 8-bit channel. *)
Definition byte_value (v : Z) : Prop := 0 <= v <= 255.

(** The terrarium decoder on binary64, for a given C library. *)
Definition decode64 (lm : B64.libm) (r g b : Z) : res float :=
  decode_terrarium (H := B64.float_ops lm) r g b.

(** The estimator on binary64, for a given C library, and on the reals. *)
Definition slope_aspect64 (lm : B64.libm) (e : list (list float)) : res (float * float) :=
  calculate_slope_aspect (H := B64.float_ops lm) e.

Definition slope_aspect_exact (origin : R) (e : list (list R)) : res (R * R) :=
  calculate_slope_aspect (H := Exact.real_ops origin) e.

(** The grid with the same elevation in its nine cells. *)
Definition flat_grid {F : Type} (a : F) : list (list F) := grid3 a a a a a a a a a.

(** The grid that rises to the east: -8 in the west column, 0 in the
    middle column, +8 in the east column. *)
Definition east_grid : list (list R) :=
  grid3 (-8)%R 0%R 8%R (-8)%R 0%R 8%R (-8)%R 0%R 8%R.


(** Horn's gradients of a 3x3 grid, as real numbers. *)
Definition horn_dzdx (a b c d e f g h i : R) : R :=
  ((c + 2 * f + i) - (a + 2 * d + g)) / 8.

Definition horn_dzdy (a b c d e f g h i : R) : R :=
  ((g + 2 * h + i) - (a + 2 * b + c)) / 8.

(** The aspect in degrees before rounding: [atan2] in degrees, plus 360
    when negative. *)
Definition aspect_degrees (origin dzdx dzdy : R) : R :=
  let d := (Exact.atan2 origin dzdy (- dzdx) * (180 / PI))%R in
  if Rlt_dec d 0 then (d + 360)%R else d.

(** [x] rounded to [n] decimals, ties to even. *)
Definition round_to (n : Z) (x : R) : R :=
  (IZR (Exact.round_half_even (x * powerRZ 10 n)) / powerRZ 10 n)%R.


(** [m] leaves the output file, the log, the progress bar and the sleep
    count as they are. *)
Definition quiet {A : Type} (m : M run A) : Prop :=
  forall s r s', m s = (r, s') ->
    out s' = out s /\ log s' = log s /\ bar s' = bar s /\ naps s' = naps s.








(** A call that raises only what [except Exception] catches. *)
Definition polite {A : Type} (r : res A) : Prop :=
  forall e, r = inl e -> is_Exception e = true.

Definition polite_M {S A : Type} (m : M S A) : Prop :=
  forall s e s', m s = (inl e, s') -> is_Exception e = true.

(** Float operations that raise only such exceptions. *)
Definition polite_float (F : Type) `{PyFloat F} : Prop :=
  (forall x y : F, polite (fdiv x y)) /\
  (forall x : F, polite (fsquare x)) /\
  (forall x : F, polite (m_sqrt x)) /\
  (forall x : F, polite (m_atan x)) /\
  (forall y x : F, polite (m_atan2 y x)) /\
  (forall x : F, polite (m_tan x)) /\
  (forall x : F, polite (m_cos x)) /\
  (forall x : F, polite (m_log x)) /\
  (forall (x : F) (n : Z), polite (py_round x n)) /\
  (forall x : F, polite (py_round0 x)) /\
  (forall x : F, polite (py_int x)).

Definition polite_remote (net : remote) : Prop :=
  (forall n k, polite (http_get net n k)) /\
  (forall b, polite (image_open net b)).

(** Collaborators that raise only such exceptions. *)
Definition polite_services {F : Type} (env : services F) : Prop :=
  (forall s, polite (float_of_string env s)) /\
  (forall s, polite (strptime env s)) /\
  (forall n lat lon, polite (elevation_api env n lat lon)) /\
  (forall n lat lon r, elevation_api env n lat lon = inr r -> polite (j_json r)) /\
  (forall n lat lon a b, polite (archive_api env n lat lon a b)) /\
  (forall n lat lon a b r, archive_api env n lat lon a b = inr r -> polite (j_json r)) /\
  (forall j, polite (json_dumps env j)) /\
  (forall ls l, polite (file_write env ls l)) /\
  polite_remote (tiles env).

(** ** Sample inputs *)

(** A [TILE_SIZE] square image with the same colour at every pixel. *)
Definition uniform_image (r g b : Byte.byte) : image :=
  {| width := TILE_SIZE; height := TILE_SIZE; pix := fun _ _ => (r, g, b) |}.

(** Sea level in the terrarium encoding: red 128, green 0, blue 0. *)
Definition sea_level : image := uniform_image Byte.x80 Byte.x00 Byte.x00.

(** A tile store that answers every request with status 200 and a decoder
    that reads every body as the sea-level tile. *)
Definition sea_net : remote :=
  {| http_get := fun _ _ => inr {| status_code := 200; content := [] |};
     image_open := fun _ => inr sea_level |}.

(** A tile store that is down. *)
Definition dead_net : remote :=
  {| http_get := fun _ _ => inl RequestException;
     image_open := fun _ => inl UnidentifiedImageError |}.

Definition fresh_world : world := {| cache := ∅; sent := []; objects := 0 |}.

Definition sea_tile : tile := {| tid := 0; img := sea_level |}.

(** The world after tile (15, 5, 7) was fetched from [sea_net]. *)
Definition warm_world : world :=
  {| cache := <[(15, 5, 7) := sea_tile]> ∅; sent := [(15, 5, 7)]; objects := 1 |}.

(** Collaborators that always answer: every number reads as 47.5, every
    date as day 738000, both Open-Meteo services return an elevation of
    100 m and an empty soil series, and tiles come from [sea_net]. *)
Definition calm_services : services float :=
  {| float_of_string := fun _ => inr 47.5%float;
     strptime := fun _ => inr 738000;
     elevation_api := fun _ _ _ =>
       inr {| j_status := 200;
              j_json := inr (JDict [("elevation"%string, JList [JFloat 100%float])]) |};
     archive_api := fun _ _ _ _ _ =>
       inr {| j_status := 200;
              j_json := inr (JDict [("daily"%string, JDict [("time"%string, JList [])])]) |};
     archive_url := fun _ _ _ _ => "https://archive-api.open-meteo.com/v1/archive"%string;
     format_coordinates := fun _ _ => "47.5, 47.5"%string;
     json_dumps := fun _ => inr "{}"%string;
     file_write := fun _ _ => inr tt;
     tiles := sea_net |}.

Definition fresh_run : run :=
  {| terrain := fresh_world; calls := 0; out := []; log := []; bar := 0; naps := 0 |}.

(** A row without its latitude column, and a complete row. *)
Definition short_row : row :=
  <["longitude"%string := Some "-121.5"%string]> ∅.

Definition full_row : row :=
  <["latitude"%string := Some "47.5"%string]>
    (<["longitude"%string := Some "-121.5"%string]>
       (<["observed_on"%string := Some "2021-08-01"%string]>
          (<["created_at"%string := Some "2021-08-02 10:00:00 UTC"%string]>
             (<["url"%string := Some "https://www.inaturalist.org/observations/1"%string]> ∅)))).

(** * Verified properties *)

(** ** Neighbourhood wrap *)

Ltac wrap_cases :=
  unfold wrap_neighbor, TILE_SIZE in *;
  repeat match goal with
         | |- context [?a <? ?b] => destruct (Z.ltb_spec a b)
         | |- context [?a >=? ?b] => rewrite (Z.geb_leb a b); destruct (Z.leb_spec b a)
         end; cbn [fst snd].




(** C9. The wrap moves at most one tile on each axis and leaves a pixel
    inside the tile, so that reading it from a [TILE_SIZE] square image
    never raises IndexError. *)
Theorem wrap_neighbor_in_bounds (tx ty ix iy dx dy : Z) :
  in_tile ix -> in_tile iy -> offset dx -> offset dy ->
  let '(ttx, tty, x, y) := wrap_neighbor tx ty ix iy dx dy in
  (tx - 1 <= ttx <= tx + 1) /\ (ty - 1 <= tty <= ty + 1) /\
  in_tile x /\ in_tile y /\
  forall im : image, width im = TILE_SIZE -> height im = TILE_SIZE ->
    exists p, pixel_access im x y = inr p.
Proof.
  unfold in_tile, offset. intros Hx Hy Hdx Hdy.
  wrap_cases; (repeat split; try lia);
    intros im Hw Hh; unfold pixel_access; rewrite Hw, Hh;
    repeat match goal with
           | |- context [?a <? ?b] => destruct (Z.ltb_spec a b); try lia
           | |- context [?a <=? ?b] => destruct (Z.leb_spec a b); try lia
           end; cbn; destruct (pix im _ _) as [[r g] b]; eauto.
Qed.

Lemma wrap_neighbor_in_bounds_witness :
  let '(ttx, tty, x, y) := wrap_neighbor 5 7 255 0 1 (-1) in
  (5 - 1 <= ttx <= 5 + 1) /\ (7 - 1 <= tty <= 7 + 1) /\
  in_tile x /\ in_tile y /\
  forall im : image, width im = TILE_SIZE -> height im = TILE_SIZE ->
    exists p, pixel_access im x y = inr p.
Proof.
  apply (wrap_neighbor_in_bounds 5 7 255 0 1 (-1));
    unfold in_tile, offset, TILE_SIZE; lia.
Defined.

(** ** Tile cache *)

Lemma fetch_tile_hit (net : remote) (z x y : Z) (w : world) (t : tile) :
  cache w !! (z, x, y) = Some t -> fetch_tile net z x y w = (inr t, w).
Proof. intros Hc. unfold fetch_tile. now rewrite Hc. Qed.

Lemma fetch_tile_miss (net : remote) (z x y : Z) (w w1 : world) (t : tile) :
  cache w !! (z, x, y) = None ->
  fetch_tile net z x y w = (inr t, w1) ->
  w1 = {| cache := <[(z, x, y) := t]> (cache w);
          sent := sent w ++ [(z, x, y)];
          objects := S (objects w) |} /\
  tid t = objects w.
Proof.
  intros Hc. unfold fetch_tile. rewrite Hc.
  destruct (http_get net _ _) as [e | r]; [discriminate |].
  destruct (raise_for_status r) as [e | []]; [discriminate |].
  destruct (image_open net _) as [e | im]; [discriminate |].
  intros Heq. injection Heq as <- <-. split; reflexivity.
Qed.

(** A call that raises has sent one request and cached nothing. *)
Lemma fetch_tile_raises (net : remote) (z x y : Z) (w w1 : world) (e : exn) :
  fetch_tile net z x y w = (inl e, w1) ->
  cache w !! (z, x, y) = None /\
  w1 = {| cache := cache w; sent := sent w ++ [(z, x, y)]; objects := objects w |}.
Proof.
  unfold fetch_tile. destruct (cache w !! (z, x, y)) as [t |]; [discriminate |].
  destruct (http_get net _ _) as [e1 | r].
  { intros Heq; injection Heq as <- <-. now split. }
  destruct (raise_for_status r) as [e1 | []].
  { intros Heq; injection Heq as <- <-. now split. }
  destruct (image_open net _) as [e1 | im]; [| discriminate].
  intros Heq; injection Heq as <- <-. now split.
Qed.

(** C7, as the code has it. When the first of two calls with one key
    returns a tile, the second call is a cache hit: it returns the same
    tile object, which the cache holds under that key, sends nothing and
    leaves the world as it is.  Together the two calls send exactly one
    request when the key was not cached before, and none when it was. *)
Theorem fetch_tile_twice (net : remote) (z x y : Z) (w w1 : world) (t : tile) :
  fetch_tile net z x y w = (inr t, w1) ->
  fetch_tile net z x y w1 = (inr t, w1) /\
  cache w1 !! (z, x, y) = Some t /\
  (cache w !! (z, x, y) = None -> sent w1 = sent w ++ [(z, x, y)]) /\
  (is_Some (cache w !! (z, x, y)) -> sent w1 = sent w).
Proof.
  intros Hfirst.
  destruct (cache w !! (z, x, y)) as [t0 |] eqn:Hc.
  - rewrite (fetch_tile_hit net z x y w t0 Hc) in Hfirst.
    injection Hfirst as <- <-.
    repeat split; auto using fetch_tile_hit. discriminate.
  - destruct (fetch_tile_miss net z x y w w1 t Hc Hfirst) as [-> _].
    assert (Hin : cache {| cache := <[(z, x, y) := t]> (cache w);
                           sent := sent w ++ [(z, x, y)];
                           objects := S (objects w) |} !! (z, x, y) = Some t)
      by apply lookup_insert_eq.
    repeat split; auto using fetch_tile_hit.
    intros [? [=]].
Qed.

Lemma fetch_tile_twice_witness :
  fetch_tile sea_net 15 5 7 warm_world = (inr sea_tile, warm_world) /\
  cache warm_world !! (15, 5, 7) = Some sea_tile /\
  (cache fresh_world !! (15, 5, 7) = None ->
   sent warm_world = sent fresh_world ++ [(15, 5, 7)]) /\
  (is_Some (cache fresh_world !! (15, 5, 7)) -> sent warm_world = sent fresh_world).
Proof.
  apply (fetch_tile_twice sea_net 15 5 7 fresh_world warm_world sea_tile).
  reflexivity.
Defined.

(** C7 as stated fails for a cache that already holds the key: two calls
    send no request at all.  It also fails when the store is down: both
    calls raise, and each has sent a request. *)
Lemma fetch_tile_twice_not_one_fetch :
  (forall net : remote,
     let w2 := snd (fetch_tile net 15 5 7 (snd (fetch_tile net 15 5 7 warm_world))) in
     sent w2 = sent warm_world) /\
  (let r1 := fetch_tile dead_net 15 5 7 fresh_world in
   let r2 := fetch_tile dead_net 15 5 7 (snd r1) in
   fst r1 = inl RequestException /\ fst r2 = inl RequestException /\
   sent (snd r2) = [(15, 5, 7); (15, 5, 7)]).
Proof.
  split.
  - intros net. cbv zeta.
    rewrite (fetch_tile_hit net 15 5 7 warm_world sea_tile) by apply lookup_insert_eq.
    cbn [snd].
    rewrite (fetch_tile_hit net 15 5 7 warm_world sea_tile) by apply lookup_insert_eq.
    reflexivity.
  - cbv zeta. repeat split.
Qed.

(** ** Exact arithmetic in binary64 *)

Lemma iter_xO_succ q d : Pos.iter xO q (Pos.succ d) = xO (Pos.iter xO q d).
Proof. apply Pos.iter_succ. Qed.

Lemma Zpos_iter_xO q d : Zpos (Pos.iter xO q d) = Zpos q * 2 ^ Zpos d.
Proof.
  induction d as [| d IH] using Pos.peano_ind.
  - cbn. lia.
  - rewrite iter_xO_succ, Pos2Z.inj_xO, IH, Pos2Z.inj_succ, Z.pow_succ_r by lia. ring.
Qed.

Lemma Zpos_shl q n : 0 <= n -> Zpos (shl q n) = Zpos q * 2 ^ n.
Proof.
  destruct n as [| d | d]; intros Hn; try lia.
  - cbn. lia.
  - apply Zpos_iter_xO.
Qed.

Lemma digits2_iter_xO q d :
  Zpos (digits2_pos (Pos.iter xO q d)) = Zpos (digits2_pos q) + Zpos d.
Proof.
  induction d as [| d IH] using Pos.peano_ind.
  - cbn. lia.
  - rewrite iter_xO_succ. cbn [digits2_pos]. rewrite Pos2Z.inj_succ, IH. lia.
Qed.

Lemma digits2_shl q n :
  0 <= n -> Zpos (digits2_pos (shl q n)) = Zpos (digits2_pos q) + n.
Proof.
  destruct n as [| d | d]; intros Hn; try lia.
  - cbn. lia.
  - apply digits2_iter_xO.
Qed.

Lemma iter_pos_peano {A} (f : A -> A) (k : positive) (x : A) :
  SpecFloat.iter_pos f k x = Pos.iter f x k.
Proof.
  revert x. induction k as [k IH | k IH |]; intros x; cbn.
  - rewrite !IH. now rewrite !Pos.iter_swap.
  - now rewrite !IH.
  - reflexivity.
Qed.


Lemma shr_exact (q k : positive) :
  SpecFloat.iter_pos shr_1 k (exact_rec (Pos.iter xO q k)) = exact_rec q.
Proof.
  rewrite iter_pos_peano. revert q.
  induction k as [| k IH] using Pos.peano_ind; intros q.
  - reflexivity.
  - rewrite Pos.iter_succ_r. rewrite iter_xO_succ. cbn [shr_1 exact_rec orb].
    apply IH.
Qed.


Lemma shr_fexp_canonical (m : positive) (e : Z) :
  Zpos (digits2_pos m) = 53 -> (-1074) <= e ->
  shr_fexp prec emax (Zpos m) e loc_Exact = (exact_rec m, e).
Proof.
  intros Hd He. unfold shr_fexp, Zdigits2, fexp, shr_record_of_loc.
  rewrite Hd.
  replace (Z.max (53 + e - prec) (SpecFloat.emin prec emax) - e) with 0.
  - reflexivity.
  - unfold prec, emax, SpecFloat.emin. lia.
Qed.

Lemma binary_round_aux_canonical (s : bool) (m : positive) (e : Z) :
  Zpos (digits2_pos m) = 53 -> (-1074) <= e <= 971 ->
  binary_round_aux prec emax s (Zpos m) e loc_Exact = S754_finite s m e.
Proof.
  intros Hd He. unfold binary_round_aux.
  rewrite shr_fexp_canonical by lia.
  cbn [exact_rec shr_m loc_of_shr_record round_nearest_even].
  rewrite shr_fexp_canonical by lia.
  cbn [exact_rec shr_m].
  replace (e <=? emax - prec) with true; [reflexivity |].
  symmetry. apply Z.leb_le. unfold emax, prec. lia.
Qed.

Lemma binary_round_aux_shifted (s : bool) (q k : positive) (e : Z) :
  Zpos (digits2_pos q) = 53 -> (-1074) <= e -> e + Zpos k <= 971 ->
  binary_round_aux prec emax s (Zpos (Pos.iter xO q k)) e loc_Exact =
  S754_finite s q (e + Zpos k).
Proof.
  intros Hd He Hk. unfold binary_round_aux.
  assert (Hs : shr_fexp prec emax (Zpos (Pos.iter xO q k)) e loc_Exact =
               (exact_rec q, e + Zpos k)).
  { unfold shr_fexp, Zdigits2, fexp, shr_record_of_loc.
    rewrite digits2_iter_xO, Hd.
    replace (Z.max (53 + Zpos k + e - prec) (SpecFloat.emin prec emax) - e) with (Zpos k)
      by (unfold prec, emax, SpecFloat.emin; lia).
    unfold shr. f_equal. apply shr_exact. }
  rewrite Hs.
  cbn [exact_rec shr_m loc_of_shr_record round_nearest_even].
  rewrite shr_fexp_canonical by lia.
  cbn [exact_rec shr_m].
  replace (e + Zpos k <=? emax - prec) with true; [reflexivity |].
  symmetry. apply Z.leb_le. unfold emax, prec. lia.
Qed.

Lemma digits2_pos_pos q : 0 < Zpos (digits2_pos q).
Proof. lia. Qed.

Lemma shl_shl q a b : 0 <= a -> 0 <= b -> shl (shl q a) b = shl q (a + b).
Proof.
  intros Ha Hb. apply Pos2Z.inj. rewrite !Zpos_shl by lia.
  rewrite Z.pow_add_r by lia. ring.
Qed.

(** Rounding [q * 2^j * 2^e] when [q] has at most 53 bits is exact. *)
Lemma binary_round_canon (s : bool) (q : positive) (j e : Z) :
  0 <= j -> Zpos (digits2_pos q) <= 53 ->
  (-1074) <= e -> (-1074) <= e + j - (53 - Zpos (digits2_pos q)) <= 971 ->
  binary_round prec emax s (shl q j) e = canon s q (e + j).
Proof.
  intros Hj HD He Hr. unfold binary_round, canon.
  set (D := Zpos (digits2_pos q)) in *.
  set (d := 53 - D) in *.
  assert (Hdig : Zpos (digits2_pos (shl q d)) = 53)
    by (rewrite digits2_shl by lia; fold D; lia).
  unfold shl_align, fexp. rewrite digits2_shl by lia. fold D.
  replace (Z.max (D + j + e - prec) (SpecFloat.emin prec emax) - e) with (j - d)
    by (unfold prec, emax, SpecFloat.emin; lia).
  destruct (j - d) as [| p | p] eqn:Hjd.
  - assert (j = d) by lia. subst j.
    rewrite binary_round_aux_canonical by lia.
    f_equal. lia.
  - assert (Hq : shl q j = Pos.iter xO (shl q d) p).
    { change (Pos.iter xO (shl q d) p) with (shl (shl q d) (Zpos p)).
      rewrite shl_shl by lia. f_equal. lia. }
    rewrite Hq, binary_round_aux_shifted by lia.
    f_equal. lia.
  - assert (Hq : Pos.iter xO (shl q j) p = shl q d).
    { change (Pos.iter xO (shl q j) p) with (shl (shl q j) (Zpos p)).
      rewrite shl_shl by lia. f_equal. lia. }
    rewrite Hq.
    replace (Z.max (D + j + e - prec) (SpecFloat.emin prec emax)) with (e + j - d)
      by (unfold prec, emax, SpecFloat.emin; lia).
    rewrite binary_round_aux_canonical by lia.
    reflexivity.
Qed.


Lemma digits2_pos_size q : digits2_pos q = Pos.size q.
Proof. induction q; cbn; congruence. Qed.

Lemma digits2_le q n : 0 <= n -> Zpos q < 2 ^ n -> Zpos (digits2_pos q) <= n.
Proof.
  intros Hn Hq. rewrite digits2_pos_size.
  destruct (Z.le_gt_cases (Zpos (Pos.size q)) n) as [| Hgt]; [assumption |].
  exfalso.
  assert (H1 : (2 ^ Pos.size q <= q~0)%positive) by apply Pos.size_le.
  assert (H2 : 2 ^ Zpos (Pos.size q) <= 2 * Zpos q).
  { rewrite <- Pos2Z.inj_pow. change (2 * Zpos q) with (Zpos q~0). now apply Pos2Z.pos_le_pos. }
  assert (H3 : 2 ^ (n + 1) <= 2 ^ Zpos (Pos.size q)) by (apply Z.pow_le_mono_r; lia).
  rewrite Z.pow_add_r in H3 by lia. lia.
Qed.

Lemma binary_normalize_dyadic (K j e : Z) :
  0 <= j -> Z.abs K < 2 ^ 53 -> (-1074) <= e -> -1021 <= e + j <= 971 ->
  binary_normalize prec emax (K * 2 ^ j) e false = dyadic K (e + j).
Proof.
  intros Hj HK He Hr.
  assert (Hp : 0 < 2 ^ j) by (apply Z.pow_pos_nonneg; lia).
  destruct K as [| q | q]; cbn [dyadic].
  - reflexivity.
  - assert (HD := digits2_le q 53 ltac:(lia) ltac:(lia)).
    rewrite <- Zpos_shl by lia. cbn [binary_normalize].
    apply binary_round_canon; lia.
  - assert (HD := digits2_le q 53 ltac:(lia) ltac:(lia)).
    replace (Z.neg q * 2 ^ j) with (Z.neg (shl q j))
      by (rewrite <- !Pos2Z.opp_pos, Zpos_shl by lia; ring).
    cbn [binary_normalize].
    apply binary_round_canon; lia.
Qed.

Lemma shl_align_fst (m : positive) (ex ez : Z) :
  ez <= ex -> Zpos (fst (shl_align m ex ez)) = Zpos m * 2 ^ (ex - ez) /\
              (ez < ex -> snd (shl_align m ex ez) = ez).
Proof.
  intros Hle. unfold shl_align.
  destruct (ez - ex) as [| p | p] eqn:Hd; cbn [fst snd].
  - replace (ex - ez) with 0 by lia. split; [lia | lia].
  - lia.
  - split; [| reflexivity].
    rewrite Zpos_iter_xO. f_equal. f_equal. lia.
Qed.


Lemma dyadic_signed s q e : canon s q e = dyadic (signed s q) e.
Proof. destruct s; reflexivity. Qed.

(** The aligned sum that [SFadd] and [SFsub] normalise. *)
Lemma aligned_value (s : bool) (q : positive) (e ez : Z) :
  Zpos (digits2_pos q) <= 53 ->
  ez <= e - (53 - Zpos (digits2_pos q)) ->
  cond_Zopp s (Zpos (fst (shl_align (shl q (53 - Zpos (digits2_pos q)))
                                     (e - (53 - Zpos (digits2_pos q))) ez))) =
  signed s q * 2 ^ (e - ez).
Proof.
  intros HD Hez.
  destruct (shl_align_fst (shl q (53 - Zpos (digits2_pos q)))
              (e - (53 - Zpos (digits2_pos q))) ez Hez) as [-> _].
  rewrite Zpos_shl by lia.
  assert (Hp : 2 ^ (e - ez) =
               2 ^ (53 - Zpos (digits2_pos q)) * 2 ^ (e - (53 - Zpos (digits2_pos q)) - ez)).
  { rewrite <- Z.pow_add_r by lia. f_equal. lia. }
  rewrite Hp. unfold signed. destruct s; cbn [cond_Zopp]; ring.
Qed.

Lemma SFadd_canon (sa sc : bool) (qa qc : positive) (e : Z) :
  Zpos qa < 2 ^ 53 -> Zpos qc < 2 ^ 53 ->
  Z.abs (signed sa qa + signed sc qc) < 2 ^ 53 ->
  -1021 <= e <= 971 ->
  SFadd prec emax (canon sa qa e) (canon sc qc e) = dyadic (signed sa qa + signed sc qc) e.
Proof.
  intros Ha Hc Hs He.
  assert (HDa := digits2_le qa 53 ltac:(lia) Ha).
  assert (HDc := digits2_le qc 53 ltac:(lia) Hc).
  unfold canon. cbn [SFadd]. cbv zeta.
  set (ez := Z.min (e - (53 - Zpos (digits2_pos qa))) (e - (53 - Zpos (digits2_pos qc)))).
  rewrite (aligned_value sa qa e ez) by (subst ez; lia).
  rewrite (aligned_value sc qc e ez) by (subst ez; lia).
  rewrite <- Z.mul_add_distr_r.
  replace (dyadic (signed sa qa + signed sc qc) e)
    with (dyadic (signed sa qa + signed sc qc) (ez + (e - ez))) by (f_equal; lia).
  apply binary_normalize_dyadic; subst ez; lia.
Qed.

Lemma SFsub_canon (sa sc : bool) (qa qc : positive) (e : Z) :
  Zpos qa < 2 ^ 53 -> Zpos qc < 2 ^ 53 ->
  Z.abs (signed sa qa - signed sc qc) < 2 ^ 53 ->
  -1021 <= e <= 971 ->
  SFsub prec emax (canon sa qa e) (canon sc qc e) = dyadic (signed sa qa - signed sc qc) e.
Proof.
  intros Ha Hc Hs He.
  assert (HDa := digits2_le qa 53 ltac:(lia) Ha).
  assert (HDc := digits2_le qc 53 ltac:(lia) Hc).
  unfold canon. cbn [SFsub]. cbv zeta.
  set (ez := Z.min (e - (53 - Zpos (digits2_pos qa))) (e - (53 - Zpos (digits2_pos qc)))).
  rewrite (aligned_value sa qa e ez) by (subst ez; lia).
  rewrite (aligned_value sc qc e ez) by (subst ez; lia).
  rewrite <- Z.mul_sub_distr_r.
  replace (dyadic (signed sa qa - signed sc qc) e)
    with (dyadic (signed sa qa - signed sc qc) (ez + (e - ez))) by (f_equal; lia).
  apply binary_normalize_dyadic; subst ez; lia.
Qed.

Lemma signed_of_Z (K : Z) :
  match K with
  | Z0 => True
  | Zpos q => K = signed false q
  | Zneg q => K = signed true q
  end.
Proof. destruct K; cbn; auto. Qed.

(** Sums and differences of dyadic values of one scale are exact. *)
Lemma SFadd_dyadic (a c e : Z) :
  Z.abs a < 2 ^ 53 -> Z.abs c < 2 ^ 53 -> Z.abs (a + c) < 2 ^ 53 ->
  -1021 <= e <= 971 ->
  SFadd prec emax (dyadic a e) (dyadic c e) = dyadic (a + c) e.
Proof.
  intros Ha Hc Hs He.
  destruct a as [| qa | qa], c as [| qc | qc]; try reflexivity;
    cbn [dyadic];
    try (rewrite Z.add_0_r; reflexivity);
    first [ apply (SFadd_canon false false) | apply (SFadd_canon false true)
          | apply (SFadd_canon true false) | apply (SFadd_canon true true) ];
    cbn [signed cond_Zopp Z.opp]; lia.
Qed.

Lemma SFsub_dyadic (a c e : Z) :
  Z.abs a < 2 ^ 53 -> Z.abs c < 2 ^ 53 -> Z.abs (a - c) < 2 ^ 53 ->
  -1021 <= e <= 971 ->
  SFsub prec emax (dyadic a e) (dyadic c e) = dyadic (a - c) e.
Proof.
  intros Ha Hc Hs He.
  destruct a as [| qa | qa], c as [| qc | qc]; try reflexivity;
    cbn [dyadic];
    first [ apply (SFsub_canon false false) | apply (SFsub_canon false true)
          | apply (SFsub_canon true false) | apply (SFsub_canon true true) ];
    cbn [signed cond_Zopp Z.opp]; lia.
Qed.

Lemma valid_canon (s : bool) (q : positive) (e : Z) :
  Zpos q < 2 ^ 53 -> -1021 <= e <= 971 ->
  valid_binary (canon s q e) = true.
Proof.
  intros Hq He. assert (HD := digits2_le q 53 ltac:(lia) Hq).
  unfold canon. cbv zeta. unfold valid_binary, SpecFloat.valid_binary, bounded, SpecFloat.bounded, canonical_mantissa, SpecFloat.canonical_mantissa, fexp.
  rewrite digits2_shl by lia.
  apply andb_true_intro. split.
  - apply Z.eqb_eq. unfold prec, emax, SpecFloat.emin. lia.
  - apply Z.leb_le. unfold prec, emax. lia.
Qed.

Lemma valid_dyadic (K e : Z) :
  Z.abs K < 2 ^ 53 -> -1021 <= e <= 971 ->
  valid_binary (dyadic K e) = true.
Proof.
  intros HK He. destruct K; cbn [dyadic]; [reflexivity | |];
    apply valid_canon; lia.
Qed.

Lemma SF2Prim_dyadic (K e : Z) :
  Z.abs K < 2 ^ 53 -> -1021 <= e <= 971 -> is_dyadic (SF2Prim (dyadic K e)) K e.
Proof. intros HK He. apply Prim2SF_SF2Prim, valid_dyadic; assumption. Qed.

Lemma of_Z_dyadic (n : Z) : Z.abs n < 2 ^ 53 -> is_dyadic (B64.of_Z n) n 0.
Proof.
  intros Hn. unfold B64.of_Z.
  replace (binary_normalize prec emax n 0 false) with (dyadic n 0).
  - apply SF2Prim_dyadic; lia.
  - symmetry. rewrite <- (Z.mul_1_r n) at 1.
    change 1 with (2 ^ 0). change 0 with (0 + 0) at 3.
    apply binary_normalize_dyadic; lia.
Qed.

Lemma add_dyadic (x y : float) (a c e : Z) :
  is_dyadic x a e -> is_dyadic y c e ->
  Z.abs a < 2 ^ 53 -> Z.abs c < 2 ^ 53 -> Z.abs (a + c) < 2 ^ 53 ->
  -1021 <= e <= 971 ->
  is_dyadic (x + y)%float (a + c) e.
Proof.
  unfold is_dyadic. intros Hx Hy Ha Hc Hs He.
  rewrite add_spec, Hx, Hy. now apply SFadd_dyadic.
Qed.

Lemma sub_dyadic (x y : float) (a c e : Z) :
  is_dyadic x a e -> is_dyadic y c e ->
  Z.abs a < 2 ^ 53 -> Z.abs c < 2 ^ 53 -> Z.abs (a - c) < 2 ^ 53 ->
  -1021 <= e <= 971 ->
  is_dyadic (x - y)%float (a - c) e.
Proof.
  unfold is_dyadic. intros Hx Hy Ha Hc Hs He.
  rewrite sub_spec, Hx, Hy. now apply SFsub_dyadic.
Qed.

(** The same value at a finer scale. *)
Lemma dyadic_rescale (K j e : Z) :
  0 <= j -> Z.abs (K * 2 ^ j) < 2 ^ 53 -> dyadic (K * 2 ^ j) (e - j) = dyadic K e.
Proof.
  intros Hj HK.
  assert (Hp : 0 < 2 ^ j) by (apply Z.pow_pos_nonneg; lia).
  assert (Hcanon : forall s q, Zpos q * 2 ^ j < 2 ^ 53 ->
                     canon s (shl q j) (e - j) = canon s q e).
  { intros s q Hq. unfold canon.
    assert (HD := digits2_le (shl q j) 53 ltac:(lia) ltac:(rewrite Zpos_shl by lia; lia)).
    rewrite digits2_shl in * by lia.
    rewrite shl_shl by lia. f_equal; [f_equal |]; lia. }
  destruct K as [| q | q]; cbn [dyadic].
  - reflexivity.
  - rewrite <- Zpos_shl by lia. cbn [dyadic]. apply Hcanon. lia.
  - replace (Z.neg q * 2 ^ j) with (Z.neg (shl q j))
      by (rewrite <- !Pos2Z.opp_pos, Zpos_shl by lia; ring).
    cbn [dyadic]. apply Hcanon. lia.
Qed.

Lemma is_dyadic_rescale (x : float) (K j e : Z) :
  0 <= j -> Z.abs (K * 2 ^ j) < 2 ^ 53 ->
  is_dyadic x K e -> is_dyadic x (K * 2 ^ j) (e - j).
Proof. unfold is_dyadic. intros Hj HK ->. symmetry. now apply dyadic_rescale. Qed.

(** A finite float minus itself is [+0]. *)
Lemma finite_cases (x : float) :
  is_finite x = true ->
  (exists s, Prim2SF x = S754_zero s) \/ (exists s m e, Prim2SF x = S754_finite s m e).
Proof.
  unfold is_finite. intros Hf. apply negb_true_iff, orb_false_iff in Hf.
  destruct Hf as [Hnan Hinf]. unfold Prim2SF. rewrite Hnan, Hinf.
  destruct (is_zero x); [eauto |].
  destruct (Z.frexp x) as [r ex].
  destruct (shr_fexp _ _ _ _ _) as [sh e'].
  destruct (shr_m sh); eauto 6.
Qed.

Lemma sub_self (x : float) : is_finite x = true -> (x - x)%float = 0%float.
Proof.
  intros Hf. apply Prim2SF_inj. rewrite sub_spec.
  destruct (finite_cases x Hf) as [[s ->] | (s & m & e & ->)].
  - destruct s; reflexivity.
  - cbn [SF64sub SFsub]. rewrite Z.sub_diag. reflexivity.
Qed.

Lemma byte_quotient (b : Z) :
  0 <= b <= 255 ->
  exists t, B64.div (B64.of_Z b) (B64.of_Z 256) = inr t /\ is_dyadic t b (-8).
Proof.
  intros Hb.
  assert (Hall : byte_quotients_exact = true) by (vm_compute; reflexivity).
  unfold byte_quotients_exact in Hall. rewrite forallb_forall in Hall.
  assert (Hin : In b (map Z.of_nat (seq 0 256))).
  { apply in_map_iff. exists (Z.to_nat b). split; [lia |]. apply in_seq. lia. }
  apply Hall, FloatAxioms.Leibniz.eqb_spec in Hin.
  exists (B64.of_Z b / B64.of_Z 256)%float. split.
  - reflexivity.
  - rewrite Hin. apply SF2Prim_dyadic; lia.
Qed.

(** ** Elevation decoder *)

Lemma finite_of_dyadic (x : float) (K e : Z) : is_dyadic x K e -> is_finite x = true.
Proof.
  unfold is_dyadic, is_finite, is_nan, is_infinity. intros Hx.
  rewrite !FloatAxioms.eqb_spec, abs_spec, Hx.
  destruct K as [| q | q]; cbn [dyadic]; unfold canon; cbv zeta;
    cbn [SFabs SFeqb SFcompare]; try reflexivity;
    rewrite Z.compare_refl, Pos.compare_cont_refl; reflexivity.
Qed.

Lemma to_Q_dyadic (x : float) (K e : Z) :
  e <= 0 -> Z.abs K < 2 ^ 53 -> is_dyadic x K e ->
  exists q, to_Q x = Some q /\ (q == K # Z.to_pos (2 ^ (- e)))%Q.
Proof.
  unfold is_dyadic, to_Q. intros He HK ->.
  assert (Hpow : forall n, 0 <= n -> 0 < 2 ^ n) by (intros; apply Z.pow_pos_nonneg; lia).
  assert (Hcanon : forall s q, Zpos q < 2 ^ 53 ->
            exists v, (let '(n, d) := B64.fraction (shl q (53 - Zpos (digits2_pos q)))
                                                   (e - (53 - Zpos (digits2_pos q))) in
                       Some (cond_Zopp s n # Z.to_pos d)) = Some v /\
                      (v == cond_Zopp s (Zpos q) # Z.to_pos (2 ^ (- e)))%Q).
  { intros s q Hq.
    destruct (Z.le_gt_cases (Zpos (digits2_pos q)) 53) as [HD | HD].
    - set (d := 53 - Zpos (digits2_pos q)) in *.
      unfold B64.fraction. destruct (Z.leb_spec 0 (e - d)) as [Hle | Hgt].
      + assert (e = 0 /\ d = 0) as [-> Hd0] by lia. rewrite Hd0.
        eexists; split; [reflexivity |].
        unfold Qeq. cbn [Qnum Qden shl]. destruct s; cbn; lia.
      + eexists; split; [reflexivity |].
        unfold Qeq. cbn [Qnum Qden].
        rewrite !Z2Pos.id by (apply Hpow; lia).
        rewrite Zpos_shl by lia.
        replace (- (e - d)) with (d + - e) by lia.
        rewrite Z.pow_add_r by lia.
        destruct s; cbn [cond_Zopp]; ring.
    - exfalso. assert (HD' := digits2_le q 53 ltac:(lia) Hq). lia. }
  destruct K as [| q | q]; cbn [dyadic]; unfold canon; cbv zeta.
  - eexists; split; reflexivity.
  - apply (Hcanon false). lia.
  - apply (Hcanon true). lia.
Qed.

(** The decoded float is the dyadic value with numerator
    [256 * (r * 256 + g) + b - 256 * 32768] over 256. *)
Lemma decode64_dyadic (lm : B64.libm) (r g b : Z) :
  byte_value r -> byte_value g -> byte_value b ->
  exists x, decode64 lm r g b = inr x /\
            is_dyadic x (256 * (r * 256 + g) + b - 256 * 32768) (-8).
Proof.
  unfold byte_value. intros Hr Hg Hb.
  destruct (byte_quotient b Hb) as (t & Ht & Hdt).
  unfold decode64, decode_terrarium. cbn [fdiv fadd fsub fromZ B64.float_ops].
  rewrite Ht. cbn [rbind]. eexists. split; [reflexivity |].
  assert (Hn : is_dyadic (B64.of_Z (r * 256 + g)) (256 * (r * 256 + g)) (-8)).
  { replace (256 * (r * 256 + g)) with ((r * 256 + g) * 2 ^ 8) by (change (2 ^ 8) with 256; ring).
    change (-8) with (0 - 8).
    apply is_dyadic_rescale; [lia | change (2 ^ 8) with 256; lia |].
    apply of_Z_dyadic. lia. }
  assert (Hk : is_dyadic (B64.of_Z 32768) (256 * 32768) (-8)).
  { change (256 * 32768) with (32768 * 2 ^ 8). change (-8) with (0 - 8).
    apply is_dyadic_rescale; [lia | reflexivity |].
    apply of_Z_dyadic. reflexivity. }
  apply sub_dyadic; [| assumption | | | |]; try lia.
  apply add_dyadic; [assumption | assumption | | | |]; lia.
Qed.

(** C6. For bytes [r], [g], [b] the decoder raises nothing and returns a
    finite float whose exact value is [(r*256 + g + b/256) - 32768]; on
    (128, 0, 0) it returns 0. *)
Theorem decode_terrarium_exact (lm : B64.libm) (r g b : Z) :
  byte_value r -> byte_value g -> byte_value b ->
  (exists x q, decode64 lm r g b = inr x /\ is_finite x = true /\
               to_Q x = Some q /\
               (q == inject_Z r * 256 + inject_Z g + inject_Z b / 256 - 32768)%Q) /\
  decode64 lm 128 0 0 = inr 0%float.
Proof.
  intros Hr Hg Hb. split; [| vm_compute; reflexivity].
  destruct (decode64_dyadic lm r g b Hr Hg Hb) as (x & Hx & Hd).
  assert (HK : Z.abs (256 * (r * 256 + g) + b - 256 * 32768) < 2 ^ 53)
    by (unfold byte_value in *; lia).
  destruct (to_Q_dyadic x _ (-8) ltac:(lia) HK Hd) as (q & Hq & Heq).
  exists x, q. repeat split; try assumption.
  - eapply finite_of_dyadic; eassumption.
  - rewrite Heq. change (Z.to_pos (2 ^ (- -8))) with 256%positive.
    unfold Qeq, Qminus, Qplus, Qdiv, Qmult, Qinv, Qopp, inject_Z.
    cbn [Qnum Qden]. cbn. lia.
Qed.

Lemma decode_terrarium_exact_witness :
  (exists x q, decode64 Ref.libm 200 17 3 = inr x /\
               is_finite x = true /\ to_Q x = Some q /\
               (q == inject_Z 200 * 256 + inject_Z 17 + inject_Z 3 / 256 - 32768)%Q) /\
  decode64 Ref.libm 128 0 0 = inr 0%float.
Proof.
  apply decode_terrarium_exact; unfold byte_value; lia.
Defined.

Lemma dyadic_numerator (x : float) (K K' : Z) :
  Z.abs K < 2 ^ 53 -> Z.abs K' < 2 ^ 53 ->
  is_dyadic x K (-8) -> is_dyadic x K' (-8) -> K = K'.
Proof.
  intros HK HK' Hd Hd'.
  destruct (to_Q_dyadic x K (-8) ltac:(lia) HK Hd) as (q & Hq & Heq).
  destruct (to_Q_dyadic x K' (-8) ltac:(lia) HK' Hd') as (q' & Hq' & Heq').
  rewrite Hq in Hq'. injection Hq' as <-.
  rewrite Heq in Heq'. unfold Qeq in Heq'. cbn in Heq'. lia.
Qed.

(** C10. For bytes [r], [g], [b] the decoded value is [K / 256] for an
    integer [K], it lies between -32768 and 32767 + 255/256, and two byte
    triples that decode to the same float are equal. *)
Theorem decode_terrarium_injective (lm : B64.libm) (r g b r' g' b' : Z) :
  byte_value r -> byte_value g -> byte_value b ->
  byte_value r' -> byte_value g' -> byte_value b' ->
  (exists (x : float) (q : Q) (K : Z),
     decode64 lm r g b = inr x /\ to_Q x = Some q /\
     (q == K # 256)%Q /\
     (- (32768) <= q)%Q /\ (q <= 32767 + 255 / 256)%Q) /\
  (decode64 lm r g b = decode64 lm r' g' b' -> r = r' /\ g = g' /\ b = b').
Proof.
  unfold byte_value. intros Hr Hg Hb Hr' Hg' Hb'.
  destruct (decode64_dyadic lm r g b Hr Hg Hb) as (x & Hx & Hd).
  destruct (decode64_dyadic lm r' g' b' Hr' Hg' Hb') as (x' & Hx' & Hd').
  split.
  - assert (HK : Z.abs (256 * (r * 256 + g) + b - 256 * 32768) < 2 ^ 53) by lia.
    destruct (to_Q_dyadic x _ (-8) ltac:(lia) HK Hd) as (q & Hq & Heq).
    exists x, q, (256 * (r * 256 + g) + b - 256 * 32768).
    change (Z.to_pos (2 ^ (- -8))) with 256%positive in Heq.
    repeat split; try assumption.
    + rewrite Heq. unfold Qle. cbn. lia.
    + rewrite Heq. unfold Qle. cbn. lia.
  - rewrite Hx, Hx'. intros Heq. injection Heq as <-.
    assert (HK : 256 * (r * 256 + g) + b - 256 * 32768 =
                 256 * (r' * 256 + g') + b' - 256 * 32768)
      by (apply (dyadic_numerator x); try assumption; lia).
    lia.
Qed.

Lemma decode_terrarium_injective_witness :
  (exists (x : float) (q : Q) (K : Z),
     decode64 Ref.libm 200 17 3 = inr x /\ to_Q x = Some q /\
     (q == K # 256)%Q /\
     (- (32768) <= q)%Q /\ (q <= 32767 + 255 / 256)%Q) /\
  (decode64 Ref.libm 200 17 3 = decode64 Ref.libm 200 17 4 ->
   200 = 200 /\ 17 = 17 /\ 3 = 4).
Proof.
  apply decode_terrarium_injective; unfold byte_value; lia.
Defined.

(** ** Slope and aspect of a flat grid (binary64) *)

Lemma square_zero (lm : B64.libm) :
  B64.annex_f lm -> B64.square lm 0 = inr 0%float.
Proof.
  intros [_ Hpow]. unfold B64.square.
  change (is_nan 0) with false. change (is_infinity 0) with false. cbv iota.
  rewrite Hpow. reflexivity.
Qed.

Lemma atan_zero (lm : B64.libm) :
  B64.annex_f lm -> B64.math_1 (B64.lm_atan lm) 0 = inr 0%float.
Proof. intros [Hatan _]. unfold B64.math_1. rewrite Hatan. reflexivity. Qed.

(** The estimator once both gradients are known to be [+0]. *)
Ltac zero_gradients lm Hlm :=
  change (B64.div 0 (B64.of_Z 8)) with (@inr exn float 0%float);
  cbn [rbind]; rewrite (square_zero lm Hlm); cbn [rbind];
  change (B64.sqrt (0 + 0)) with (@inr exn float 0%float); cbn [rbind];
  rewrite (atan_zero lm Hlm); cbn [rbind];
  vm_compute.

Ltac open_estimator :=
  unfold slope_aspect64, calculate_slope_aspect, flat_grid, grid3;
  cbn [at2 lookup list_lookup rbind];
  cbn [fdiv fsub fadd fmul fromZ fsquare m_sqrt m_atan m_atan2 fneg flt
       py_round m_degrees radToDeg B64.float_ops];
  change (B64.of_Z 2) with 2%float.

(** C2, as the code has it. On a flat grid whose column sum does not
    overflow, the estimator raises nothing and returns slope 0.0 and
    aspect 180.0: both gradients are [+0], the second argument of
    [math.atan2] is [-0], and [atan2(+0, -0)] is pi. *)
Theorem flat_grid_slope_aspect (lm : B64.libm) (a : float) :
  B64.annex_f lm ->
  is_finite (a + 2 * a + a)%float = true ->
  slope_aspect64 lm (flat_grid a) = inr (0, 180)%float.
Proof.
  intros Hlm Hfin. open_estimator.
  rewrite (sub_self _ Hfin).
  zero_gradients lm Hlm. reflexivity.
Qed.

Lemma flat_grid_slope_aspect_witness :
  slope_aspect64 Ref.libm (flat_grid 5%float) = inr (0, 180)%float.
Proof.
  apply (flat_grid_slope_aspect Ref.libm 5); [split |]; reflexivity.
Defined.

(** C2 as stated fails: on the flat grid of fives the aspect is 180.0,
    not 0.0, whatever the C library. *)
Lemma flat_grid_aspect_not_zero :
  B64.annex_f Ref.libm /\
  forall lm : B64.libm, B64.annex_f lm ->
    slope_aspect64 lm (flat_grid 5%float) = inr (0, 180)%float /\
    slope_aspect64 lm (flat_grid 5%float) <> inr (0, 0)%float.
Proof.
  split; [split; reflexivity |].
  intros lm Hlm.
  assert (H : slope_aspect64 lm (flat_grid 5%float) = inr (0, 180)%float).
  { open_estimator.
    change (5 + 2 * 5 + 5 - (5 + 2 * 5 + 5))%float with 0%float.
    zero_gradients lm Hlm. reflexivity. }
  split; [assumption |].
  rewrite H. intros Heq.
  pose proof (f_equal (fun r : res (float * float) =>
                         match r with
                         | inr (_, y) => PrimFloat.eqb y 0
                         | inl _ => true
                         end) Heq) as Hb.
  vm_compute in Hb. discriminate Hb.
Qed.

(** ** Slope and aspect in exact arithmetic *)

Section ExactFacts.
Local Open Scope R_scope.

Lemma atan_series_bounds (x : R) (N : nat) :
  0 < x < 1 ->
  sum_f_R0 (tg_alt (Ratan_seq x)) (S (2 * N)) <= atan x <=
  sum_f_R0 (tg_alt (Ratan_seq x)) (2 * N).
Proof.
  intros Hx. rewrite atan_eq_ps_atan by assumption.
  unfold ps_atan. destruct (Ratan.in_int x) as [Hin | Hout].
  - destruct (ps_atan_exists_1 x Hin) as [v Pv].
    apply alternated_series_ineq.
    + apply Ratan_seq_decreasing. lra.
    + apply Ratan_seq_converging. lra.
    + exact Pv.
  - exfalso. apply Hout. lra.
Qed.

Lemma PI_upper : PI < 3141593 / 1000000.
Proof.
  destruct (PI_2_3_7_ineq 3) as [_ Hup].
  apply Rle_lt_trans with (4 * sum_f_R0 (tg_alt PI_2_3_7_tg) (2 * 3)); [lra |].
  unfold sum_f_R0, tg_alt, PI_2_3_7_tg, Ratan_seq. simpl. lra.
Qed.

Lemma PI_lower : 3141592 / 1000000 < PI.
Proof.
  destruct (PI_2_3_7_ineq 3) as [Hlo _].
  apply Rlt_le_trans with (4 * sum_f_R0 (tg_alt PI_2_3_7_tg) (S (2 * 3))); [| lra].
  unfold sum_f_R0, tg_alt, PI_2_3_7_tg, Ratan_seq. simpl. lra.
Qed.

Lemma atan_eighth_lower : 124354990 / 1000000000 < atan (/ 8).
Proof.
  destruct (atan_series_bounds (/ 8) 1 ltac:(lra)) as [Hlo _].
  eapply Rlt_le_trans; [| exact Hlo].
  unfold sum_f_R0, tg_alt, Ratan_seq. simpl. lra.
Qed.


Lemma atan_eighth_upper : atan (/ 8) < 124356 / 1000000.
Proof.
  destruct (atan_series_bounds (/ 8) 1 ltac:(lra)) as [_ Hup].
  eapply Rle_lt_trans; [exact Hup |].
  unfold sum_f_R0, tg_alt, Ratan_seq. simpl. lra.
Qed.

(** atan(8) in degrees rounds to 82.87 *)
Lemma atan_8_degrees : 82865 / 1000 < atan 8 * (180 / PI) < 82875 / 1000.
Proof.
  assert (Hinv : atan (/ 8) = PI / 2 - atan 8) by (apply atan_inv; lra).
  assert (Hlo := atan_eighth_lower).
  assert (Hup := atan_eighth_upper).
  assert (Hpl := PI_lower). assert (Hpu := PI_upper).
  assert (Hpos : 0 < PI) by lra.
  replace (atan 8 * (180 / PI)) with (90 - atan (/ 8) * 180 / PI)
    by (rewrite Hinv; field; lra).
  split.
  - apply Rmult_lt_reg_r with PI; [assumption |].
    replace ((90 - atan (/ 8) * 180 / PI) * PI) with (90 * PI - atan (/ 8) * 180)
      by (field; lra).
    lra.
  - apply Rmult_lt_reg_r with PI; [assumption |].
    replace ((90 - atan (/ 8) * 180 / PI) * PI) with (90 * PI - atan (/ 8) * 180)
      by (field; lra).
    lra.
Qed.

Lemma round_half_even_near (x : R) (z : Z) :
  IZR z - 1 / 2 < x < IZR z + 1 / 2 -> Exact.round_half_even x = z.
Proof.
  intros Hx. unfold Exact.round_half_even.
  destruct (Rlt_dec x (IZR z)) as [Hlt | Hge].
  - assert (Hf : Zfloor x = (z - 1)%Z)
      by (apply Zfloor_eq; rewrite minus_IZR; lra).
    rewrite Hf. rewrite minus_IZR.
    destruct (Rlt_dec (x - (IZR z - 1)) (1 / 2)); [lra |].
    destruct (Rlt_dec (1 / 2) (x - (IZR z - 1))); [lia | lra].
  - assert (Hf : Zfloor x = z) by (apply Zfloor_eq; lra).
    rewrite Hf.
    destruct (Rlt_dec (x - IZR z) (1 / 2)); [reflexivity | lra].
Qed.


(** The estimator on a 3x3 grid of reals raises nothing; it returns the
    rounded slope and aspect of Horn's gradients. *)
Lemma slope_aspect_exact_grid3 (origin a b c d e f g h i : R) :
  slope_aspect_exact origin (grid3 a b c d e f g h i) =
  inr (round_to 2 (atan (sqrt (horn_dzdx a b c d e f g h i * horn_dzdx a b c d e f g h i +
                               horn_dzdy a b c d e f g h i * horn_dzdy a b c d e f g h i))
                   * (180 / PI)),
       round_to 1 (aspect_degrees origin (horn_dzdx a b c d e f g h i)
                                  (horn_dzdy a b c d e f g h i))).
Proof.
  unfold slope_aspect_exact, calculate_slope_aspect, grid3.
  cbn [at2 lookup list_lookup rbind].
  cbn [fdiv fsub fadd fmul fromZ fsquare m_sqrt m_atan m_atan2 fneg flt
       py_round m_degrees radToDeg Exact.real_ops].
  unfold Exact.div. destruct (Req_dec_T 8 0) as [H8 | _]; [lra |].
  cbn [rbind]. fold (horn_dzdx a b c d e f g h i). fold (horn_dzdy a b c d e f g h i).
  set (dx := horn_dzdx a b c d e f g h i). set (dy := horn_dzdy a b c d e f g h i).
  unfold Exact.sqrt. destruct (Rlt_dec (dx * dx + dy * dy) 0) as [Hneg | _]; [nra |].
  cbn [rbind]. unfold Exact.round, round_to, aspect_degrees, Exact.ltb. cbn [rbind].
  destruct (Rlt_dec _ 0); reflexivity.
Qed.
End ExactFacts.

Section ExactClaims.
Local Open Scope R_scope.

Lemma PI_positive : 0 < PI.
Proof. assert (H := PI_lower). lra. Qed.









Lemma atan_8_rounded : round_to 2 (atan 8 * (180 / PI)) = 8287 / 100.
Proof.
  unfold round_to. replace (powerRZ 10 2) with 100 by (simpl; lra).
  assert (H := atan_8_degrees).
  rewrite (round_half_even_near _ 8287) by lra. lra.
Qed.

Lemma due_west_aspect (origin : R) : round_to 1 (aspect_degrees origin 8 0) = 180.
Proof.
  assert (Hpi := PI_positive).
  unfold aspect_degrees, Exact.atan2. cbv zeta.
  destruct (Rlt_dec 0 (- (8))) as [Hn | _]; [lra |].
  destruct (Rlt_dec (- (8)) 0) as [_ | Hn]; [| lra].
  destruct (Rle_dec 0 0) as [_ | Hn]; [| lra].
  replace (0 / - (8)) with 0 by lra. rewrite atan_0.
  replace ((0 + PI) * (180 / PI)) with 180 by (field; lra).
  destruct (Rlt_dec 180 0) as [Hn | _]; [lra |].
  unfold round_to. replace (powerRZ 10 1) with 10 by (simpl; lra).
  rewrite (round_half_even_near _ 1800) by lra. lra.
Qed.

Lemma east_grid_gradients :
  horn_dzdx (-8) 0 8 (-8) 0 8 (-8) 0 8 = 8 /\ horn_dzdy (-8) 0 8 (-8) 0 8 (-8) 0 8 = 0.
Proof. unfold horn_dzdx, horn_dzdy. split; lra. Qed.

(** C4, as the code has it. On the grid that rises to the east both
    gradients are exact, [dz/dx = 8] and [dz/dy = 0]; the slope is
    [atan 8] in degrees, 82.87 after rounding, and the aspect is 180. *)
Theorem east_grid_slope_aspect (origin : R) :
  slope_aspect_exact origin east_grid = inr (8287 / 100, 180).
Proof.
  unfold east_grid. rewrite slope_aspect_exact_grid3.
  destruct east_grid_gradients as [-> ->].
  replace (8 * 8 + 0 * 0) with (8 * 8) by lra.
  rewrite sqrt_square by lra.
  now rewrite atan_8_rounded, due_west_aspect.
Qed.

(** C4 as stated fails: the slope is far from 45 and the aspect far from
    90. *)
Lemma east_grid_not_45_90 :
  exists s asp : R,
    (forall origin : R, slope_aspect_exact origin east_grid = inr (s, asp)) /\
    37 < s - 45 /\ 89 < asp - 90.
Proof.
  exists (8287 / 100), 180. split; [| lra].
  intros origin. unfold east_grid. rewrite slope_aspect_exact_grid3.
  destruct east_grid_gradients as [-> ->].
  replace (8 * 8 + 0 * 0) with (8 * 8) by lra.
  rewrite sqrt_square by lra.
  now rewrite atan_8_rounded, due_west_aspect.
Qed.
End ExactClaims.

(** ** Per-observation failure isolation *)

Section Isolation.
Context {F : Type} `{PyFloat F}.
Variable env : services F.

Lemma quiet_ret {A : Type} (a : A) : quiet (ret a).
Proof. intros s r s' Heq. injection Heq as <- <-. auto. Qed.

Lemma quiet_lift {A : Type} (r : res A) : quiet (lift r).
Proof. intros s r0 s' Heq. injection Heq as <- <-. auto. Qed.

Lemma quiet_bind {A B : Type} (m : M run A) (k : A -> M run B) :
  quiet m -> (forall a, quiet (k a)) -> quiet (bind m k).
Proof.
  intros Hm Hk s r s'. unfold bind.
  destruct (m s) as [[e | a] s1] eqn:Hms.
  - intros Heq. injection Heq as <- <-. eapply Hm; eassumption.
  - intros Hks. destruct (Hm _ _ _ Hms) as (Ho & Hl & Hb & Hn).
    destruct (Hk a _ _ _ Hks) as (Ho' & Hl' & Hb' & Hn').
    repeat split; congruence.
Qed.

Lemma quiet_tick : quiet tick.
Proof. intros s r s' Heq. injection Heq as <- <-. auto. Qed.

Lemma quiet_on_terrain {A : Type} (m : M world A) : quiet (on_terrain m).
Proof.
  intros s r s'. unfold on_terrain. destruct (m (terrain s)) as [r0 w].
  intros Heq. injection Heq as <- <-. auto.
Qed.

Lemma quiet_build_record (r : row) : quiet (build_record env r).
Proof.
  unfold build_record, get_elevation, fetch_soil_data.
  repeat first
    [ apply quiet_ret | apply quiet_lift | apply quiet_tick | apply quiet_on_terrain
    | apply quiet_bind; [| intros ?]
    | match goal with |- quiet (let '(_, _) := ?p in _) => destruct p end ].
Qed.

(** A failing [try] body has written nothing and has not touched the log
    or the progress bar. *)
Lemma try_row_failure (r : row) (s s1 : run) (e : exn) :
  try_row env r s = (inl e, s1) ->
  out s1 = out s /\ log s1 = log s /\ bar s1 = bar s /\ naps s1 = naps s.
Proof.
  unfold try_row, bind.
  destruct (build_record env r s) as [[e0 | record] s0] eqn:Hb.
  - intros Heq. injection Heq as <- <-. eapply quiet_build_record; eassumption.
  - destruct (quiet_build_record r _ _ _ Hb) as (Ho & Hl & Hbar & Hn).
    unfold lift. destruct (json_dumps env record) as [e1 | text].
    + intros Heq. injection Heq as <- <-. auto.
    + unfold write_line. destruct (file_write env (out s0) _) as [e1 | []].
      * intros Heq. injection Heq as <- <-. auto.
      * discriminate.
Qed.



End Isolation.


(** ** Mercator projector *)







Section ExactMercator.
Local Open Scope R_scope.





End ExactMercator.

(** ** The batch loop never aborts on ordinary exceptions *)

Lemma polite_inr {A : Type} (a : A) : polite (inr a : res A).
Proof. intros e Heq. discriminate. Qed.

Lemma polite_inl {A : Type} (e : exn) :
  is_Exception e = true -> polite (inl e : res A).
Proof. intros He e' Heq. injection Heq as <-. assumption. Qed.

Lemma polite_rbind {A B : Type} (r : res A) (k : A -> res B) :
  polite r -> (forall a, polite (k a)) -> polite (rbind r k).
Proof.
  intros Hr Hk e. destruct r as [e0 | a]; cbn [rbind].
  - intros Heq. injection Heq as <-. now apply Hr.
  - apply Hk.
Qed.

Lemma polite_M_ret {S A : Type} (a : A) : polite_M (ret a : M S A).
Proof. intros s e s' Heq. discriminate. Qed.

Lemma polite_M_lift {S A : Type} (r : res A) : polite r -> polite_M (lift r : M S A).
Proof. intros Hr s e s' Heq. injection Heq as Heq _. now apply Hr. Qed.

Lemma polite_M_bind {S A B : Type} (m : M S A) (k : A -> M S B) :
  polite_M m -> (forall a, polite_M (k a)) -> polite_M (bind m k).
Proof.
  intros Hm Hk s e s'. unfold bind.
  destruct (m s) as [[e0 | a] s1] eqn:Hms.
  - intros Heq. injection Heq as <- <-. eapply Hm; eassumption.
  - intros Hks. eapply Hk; eassumption.
Qed.

Lemma polite_M_for_each {S A B : Type} (xs : list A) (body : A -> B -> M S B) (acc : B) :
  (forall x b, polite_M (body x b)) -> polite_M (for_each xs body acc).
Proof.
  intros Hbody. revert acc.
  induction xs as [| x rest IH]; intros acc; cbn [for_each].
  - apply polite_M_ret.
  - apply polite_M_bind; [apply Hbody | assumption].
Qed.

Ltac polite_steps :=
  repeat first
    [ apply polite_inr
    | apply polite_inl; reflexivity
    | apply polite_rbind; [| intros ?]
    | match goal with |- polite (let '(_, _) := ?p in _) => destruct p end
    | match goal with |- polite (if ?c then _ else _) => destruct c end ].

Lemma polite_subscript_key {F : Type} (v : json F) (k : string) :
  polite (subscript_key v k).
Proof. unfold subscript_key. destruct v; try destruct (assoc _ _); polite_steps. Qed.

Lemma polite_subscript_zero {F : Type} (v : json F) : polite (subscript_zero v).
Proof.
  unfold subscript_zero.
  destruct v as [| | | | [| c s] | [| x l] |]; polite_steps.
Qed.

Lemma polite_dict_get {F : Type} (v : json F) (k : string) :
  polite (dict_get_or_empty v k).
Proof. unfold dict_get_or_empty. destruct v; try destruct (assoc _ _); polite_steps. Qed.

Lemma polite_pixel_access (im : image) (x y : Z) : polite (pixel_access im x y).
Proof.
  unfold pixel_access.
  match goal with |- polite (if ?c then _ else _) => destruct c end.
  - destruct (pix im _ _) as [[r g] b]. apply polite_inr.
  - polite_steps.
Qed.

Lemma polite_raise_for_status (r : response) : polite (raise_for_status r).
Proof. unfold raise_for_status. polite_steps. Qed.

Section Polite.
Context {F : Type} `{PyFloat F}.
Hypothesis float_polite : polite_float F.

Ltac use_float :=
  destruct float_polite as
    (Hdiv & Hsq & Hsqrt & Hatan & Hatan2 & Htan & Hcos & Hlog & Hround & Hround0 & Hint).

Lemma polite_at2 (e : list (list F)) (i j : nat) : polite (at2 e i j).
Proof.
  unfold at2. destruct (e !! i) as [rw |]; [destruct (rw !! j) |]; polite_steps.
Qed.

Lemma polite_pow2_zoom (z : Z) : polite (pow2_zoom z).
Proof. use_float. unfold pow2_zoom. destruct (0 <=? z); [apply polite_inr | apply Hdiv]. Qed.

Lemma polite_latlon_to_pixel (lat lon : F) (z : Z) : polite (latlon_to_pixel lat lon z).
Proof.
  use_float. unfold latlon_to_pixel.
  repeat first
    [ apply polite_inr | apply polite_pow2_zoom | apply Hdiv | apply Htan | apply Hcos
    | apply Hlog | apply Hint | apply polite_rbind; [| intros ?] ].
Qed.

Lemma polite_decode_terrarium (r g b : Z) : polite (decode_terrarium r g b).
Proof.
  use_float. unfold decode_terrarium.
  apply polite_rbind; [apply Hdiv | intros ?; apply polite_inr].
Qed.

Lemma polite_calculate_slope_aspect (e : list (list F)) :
  polite (calculate_slope_aspect e).
Proof.
  use_float. unfold calculate_slope_aspect.
  repeat first
    [ apply polite_inr | apply polite_at2 | apply Hdiv | apply Hsq | apply Hsqrt
    | apply Hatan | apply Hatan2 | apply Hround | apply polite_rbind; [| intros ?] ].
Qed.

Lemma polite_times_feet (v : json F) : polite (times_feet v).
Proof. unfold times_feet. destruct v; polite_steps. Qed.

Lemma polite_soil_series (pre : string) (soil : json F) (vars : list string) :
  polite (soil_series pre soil vars).
Proof.
  induction vars as [| k rest IH]; cbn [soil_series]; [apply polite_inr |].
  destruct (startswith pre k); [| assumption].
  repeat first
    [ apply polite_inr | apply polite_subscript_key | apply polite_dict_get
    | assumption | apply polite_rbind; [| intros ?] ].
Qed.

Lemma polite_fetch_tile (net : remote) (z x y : Z) :
  polite_remote net -> polite_M (fetch_tile net z x y).
Proof.
  intros [Hget Hopen] s e s'. unfold fetch_tile.
  destruct (cache s !! (z, x, y)); [discriminate |].
  destruct (http_get net _ _) as [e0 | r] eqn:Hg.
  { intros Heq. injection Heq as <- _. eapply Hget; eassumption. }
  destruct (raise_for_status r) as [e0 | []] eqn:Hr.
  { intros Heq. injection Heq as <- _. eapply polite_raise_for_status; eassumption. }
  destruct (image_open net _) as [e0 | im] eqn:Ho; [| discriminate].
  intros Heq. injection Heq as <- _. eapply Hopen; eassumption.
Qed.

Lemma polite_sample (net : remote) (z tx ty ix iy dy dx : Z) (g : list (list F)) :
  polite_remote net -> polite_M (sample net z tx ty ix iy dy dx g).
Proof.
  intros Hnet. unfold sample.
  destruct (wrap_neighbor tx ty ix iy dx dy) as [[[ttx tty] x] y].
  apply polite_M_bind; [now apply polite_fetch_tile | intros t].
  apply polite_M_bind; [apply polite_M_lift, polite_pixel_access | intros [[r g0] b]].
  apply polite_M_bind; [apply polite_M_lift, polite_decode_terrarium | intros v].
  apply polite_M_ret.
Qed.

Lemma polite_get_elevation_grid (net : remote) (lat lon : F) (z : Z) :
  polite_remote net -> polite_M (get_elevation_grid net lat lon z).
Proof.
  intros Hnet. unfold get_elevation_grid.
  apply polite_M_bind; [apply polite_M_lift, polite_latlon_to_pixel | intros [px py]].
  apply polite_M_for_each. intros dy g.
  apply polite_M_for_each. intros dx g'.
  now apply polite_sample.
Qed.

Variable env : services F.
Hypothesis services_polite : polite_services env.

Ltac use_services :=
  destruct services_polite as
    (Hfloat & Hdate & Helev & Helevj & Harch & Harchj & Hdumps & Hwrite & Htiles).

Lemma polite_M_tick : polite_M tick.
Proof. intros s e s' Heq. discriminate. Qed.

Lemma polite_M_on_terrain {A : Type} (m : M world A) :
  polite_M m -> polite_M (on_terrain m).
Proof.
  intros Hm s e s'. unfold on_terrain.
  destruct (m (terrain s)) as [r w] eqn:Hmw.
  intros Heq. injection Heq as -> _. eapply Hm; eassumption.
Qed.

Lemma polite_field (r : row) (k : string) : polite (field r k).
Proof. unfold field. destruct (r !! k); polite_steps. Qed.

Lemma polite_to_float (v : option string) : polite (to_float env v).
Proof. use_services. unfold to_float. destruct v; [apply Hfloat | polite_steps]. Qed.

Lemma polite_date_string (r : row) : polite (date_string r).
Proof.
  unfold date_string. apply polite_rbind; [apply polite_field | intros o].
  destruct o as [[| c rest] |];
    try apply polite_inr;
    (apply polite_rbind; [apply polite_field | intros [s |]; polite_steps]).
Qed.

Lemma polite_checked_json (r : jresponse F) :
  polite (j_json r) -> polite (checked_json r).
Proof. intros Hj. unfold checked_json. destruct (_ && _); [polite_steps | assumption]. Qed.

Lemma polite_get_elevation (lat lon : F) : polite_M (get_elevation env lat lon).
Proof.
  use_services. use_float. unfold get_elevation.
  apply polite_M_bind; [apply polite_M_tick | intros n].
  intros s e s'. unfold bind, lift.
  destruct (elevation_api env n lat lon) as [e0 | r] eqn:Hr.
  { intros Heq. injection Heq as <- _. eapply Helev; eassumption. }
  intros Heq. injection Heq as Heq _. revert e Heq.
  change (polite (j <~ checked_json r;;
                  e <~ subscript_key j "elevation";;
                  e0 <~ subscript_zero e;;
                  ft <~ times_feet e0;; py_round0 ft)%py).
  repeat first
    [ apply polite_checked_json; eapply Helevj; eassumption
    | apply polite_subscript_key | apply polite_subscript_zero
    | apply polite_times_feet | apply Hround0
    | apply polite_rbind; [| intros ?] ].
Qed.

Lemma polite_start_date (d : Z) : polite (start_date d).
Proof. unfold start_date. polite_steps. Qed.

Lemma polite_fetch_soil_data (lat lon : F) (d : Z) :
  polite_M (fetch_soil_data env lat lon d).
Proof.
  use_services. unfold fetch_soil_data.
  apply polite_M_bind; [apply polite_M_lift, polite_start_date | intros start].
  apply polite_M_bind; [apply polite_M_tick | intros n].
  intros s e s'. unfold bind, lift.
  destruct (archive_api env n lat lon start d) as [e0 | r] eqn:Hr.
  { intros Heq. injection Heq as <- _. eapply Harch; eassumption. }
  destruct (checked_json r) as [e0 | j] eqn:Hj; [| discriminate].
  intros Heq. injection Heq as <- _.
  eapply polite_checked_json; [eapply Harchj |]; eassumption.
Qed.

Lemma polite_build_record (r : row) : polite_M (build_record env r).
Proof.
  use_services. use_float. unfold build_record.
  repeat first
    [ apply polite_M_ret
    | apply polite_get_elevation | apply polite_fetch_soil_data
    | apply polite_M_on_terrain, polite_get_elevation_grid; assumption
    | apply polite_M_lift;
      first [ apply polite_field | apply polite_to_float | apply polite_date_string
            | apply Hdate | apply polite_at2 | apply Hround0
            | apply polite_calculate_slope_aspect | apply polite_subscript_key
            | apply polite_soil_series ]
    | apply polite_M_bind; [| intros ?]
    | match goal with |- polite_M (let '(_, _) := ?p in _) => destruct p end ].
Qed.

Lemma polite_try_row (r : row) : polite_M (try_row env r).
Proof.
  use_services. unfold try_row.
  apply polite_M_bind; [apply polite_build_record | intros record].
  apply polite_M_bind; [apply polite_M_lift, Hdumps | intros text].
  intros s e s'. unfold write_line.
  destruct (file_write env (out s) _) as [e0 | []] eqn:Hw; [| discriminate].
  intros Heq. injection Heq as <- _. eapply Hwrite; eassumption.
Qed.
End Polite.

Lemma b64_polite (lm : B64.libm) : polite_float float (H := B64.float_ops lm).
Proof.
  unfold polite_float. cbn [fdiv fsquare m_sqrt m_atan m_atan2 m_tan m_cos m_log
                            py_round py_round0 py_int B64.float_ops].
  repeat split; intros.
  - unfold B64.div. polite_steps.
  - unfold B64.square. polite_steps.
  - unfold B64.sqrt, B64.math_1. polite_steps.
  - unfold B64.math_1. polite_steps.
  - unfold B64.atan2. polite_steps.
  - unfold B64.math_1. polite_steps.
  - unfold B64.math_1. polite_steps.
  - unfold B64.log, B64.math_1. polite_steps.
  - unfold B64.round. destruct (Prim2SF x); try apply polite_inr.
    destruct (B64.fraction m e) as [num den].
    destruct (0 <=? n); destruct (B64.round_half_even_div _ _); try apply polite_inr;
      match goal with |- polite (match ?r with _ => _ end) => destruct r end;
      polite_steps.
  - unfold B64.round0. destruct (Prim2SF x); polite_steps.
  - unfold B64.int. destruct (Prim2SF x); polite_steps.
Qed.

Lemma exact_polite (origin : R) : polite_float R (H := Exact.real_ops origin).
Proof.
  unfold polite_float. cbn [fdiv fsquare m_sqrt m_atan m_atan2 m_tan m_cos m_log
                            py_round py_round0 py_int Exact.real_ops].
  repeat split; intros; try apply polite_inr.
  - unfold Exact.div. destruct (Req_dec_T _ _); polite_steps.
  - unfold Exact.sqrt. destruct (Rlt_dec _ _); polite_steps.
  - unfold Exact.log. destruct (Rle_dec _ _); polite_steps.
Qed.

Lemma sea_net_polite : polite_remote sea_net.
Proof. split; intros; apply polite_inr. Qed.

Lemma calm_services_polite : polite_services calm_services.
Proof.
  unfold polite_services. cbn.
  repeat split; intros; try apply polite_inr.
  - injection H as <-. apply polite_inr.
  - injection H as <-. apply polite_inr.
Qed.

Section Batch.
Context {F : Type} `{PyFloat F}.
Variable env : services F.

(** A successful [try] body has appended exactly one line, ending in a
    newline, and left the log and the progress bar alone. *)
Lemma try_row_success (r : row) (s s1 : run) :
  try_row env r s = (inr tt, s1) ->
  exists text, out s1 = out s ++ [(text ++ String (Ascii.ascii_of_nat 10) EmptyString)%string] /\
               log s1 = log s /\ bar s1 = bar s /\ naps s1 = naps s.
Proof.
  unfold try_row, bind.
  destruct (build_record env r s) as [[e0 | record] s0] eqn:Hb; [discriminate |].
  destruct (quiet_build_record env r _ _ _ Hb) as (Ho & Hl & Hbar & Hn).
  unfold lift. destruct (json_dumps env record) as [e1 | text]; [discriminate |].
  unfold write_line. destruct (file_write env (out s0) _) as [e1 | []]; [discriminate |].
  intros Heq. injection Heq as <-. exists text. cbn [out log bar naps].
  rewrite Ho. auto.
Qed.

(** One turn of the loop, when nothing but ordinary exceptions can be
    raised. *)
Lemma handle_row_total (r : row) (s : run) :
  polite_M (try_row env r) ->
  exists s2,
    handle_row env r s = (inr tt, s2) /\
    bar s2 = S (bar s) /\ naps s2 = S (naps s) /\
    (length (out s2) + length (log s2) = S (length (out s) + length (log s)))%nat.
Proof.
  intros Hpol. unfold handle_row.
  destruct (try_row env r s) as [[e | []] s1] eqn:Htry.
  - rewrite (Hpol _ _ _ Htry).
    destruct (try_row_failure env r s s1 e Htry) as (Ho & Hl & Hb & Hn).
    eexists. split; [reflexivity |]. cbn [out log bar naps].
    rewrite Ho, Hl, Hb, Hn, length_app. cbn [length]. repeat split; lia.
  - destruct (try_row_success r s s1 Htry) as (text & Ho & Hl & Hb & Hn).
    eexists. split; [reflexivity |]. cbn [out log bar naps].
    rewrite Ho, Hl, Hb, Hn, length_app. cbn [length]. repeat split; lia.
Qed.

(** X1. With float operations and collaborators that raise nothing but
    ordinary exceptions, the loop over a batch never raises: every row
    advances the progress bar and the sleep count by one and leaves
    exactly one trace, a line in the output or an entry in the log. *)
Theorem batch_completes (rows : list row) (s : run) :
  polite_float F -> polite_services env ->
  exists s',
    process_rows env rows s = (inr tt, s') /\
    bar s' = (bar s + length rows)%nat /\
    naps s' = (naps s + length rows)%nat /\
    (length (out s') + length (log s') =
     length (out s) + length (log s) + length rows)%nat.
Proof.
  intros Hf He. revert s.
  induction rows as [| r rest IH]; intros s.
  - exists s. cbn. repeat split; lia.
  - destruct (handle_row_total r s (polite_try_row Hf env He r))
      as (s2 & Hh & Hb & Hn & Hl).
    destruct (IH s2) as (s' & Hp & Hb' & Hn' & Hl').
    exists s'. unfold process_rows in *. cbn [for_each]. unfold bind at 1.
    rewrite Hh. split; [exact Hp |]. cbn [length]. repeat split; lia.
Qed.

(** X2. An exception that [except Exception] does not catch leaves the
    loop at once: it is not logged, the progress bar does not advance and
    the rows that follow are not processed. *)
Theorem interrupt_propagates (r : row) (rest : list row) (s s1 : run) (e : exn) :
  try_row env r s = (inl e, s1) ->
  is_Exception e = false ->
  process_rows env (r :: rest) s = (inl e, s1) /\
  log s1 = log s /\ bar s1 = bar s.
Proof.
  intros Htry Hexc.
  destruct (try_row_failure env r s s1 e Htry) as (Ho & Hl & Hb & Hn).
  split; [| now split].
  unfold process_rows. cbn [for_each]. unfold bind at 1.
  unfold handle_row. rewrite Htry, Hexc. reflexivity.
Qed.

(** X3. A row whose [try] body succeeds writes exactly one line, ending
    in a newline, after the lines written before; nothing is logged. *)
Theorem successful_row_writes_one_line (r : row) (s s1 : run) :
  try_row env r s = (inr tt, s1) ->
  exists (text : string) (s2 : run),
    handle_row env r s = (inr tt, s2) /\
    out s2 = out s ++ [(text ++ String (Ascii.ascii_of_nat 10) EmptyString)%string] /\
    log s2 = log s /\ bar s2 = S (bar s).
Proof.
  intros Htry.
  destruct (try_row_success r s s1 Htry) as (text & Ho & Hl & Hb & Hn).
  exists text. eexists. unfold handle_row. rewrite Htry.
  split; [reflexivity |]. cbn [out log bar]. rewrite Ho, Hl, Hb. auto.
Qed.
End Batch.

Lemma batch_completes_witness :
  exists s',
    process_rows (H := B64.float_ops Ref.libm) calm_services [short_row; full_row] fresh_run
      = (inr tt, s') /\
    bar s' = (bar fresh_run + length [short_row; full_row])%nat /\
    naps s' = (naps fresh_run + length [short_row; full_row])%nat /\
    (length (out s') + length (log s') =
     length (out fresh_run) + length (log fresh_run) + length [short_row; full_row])%nat.
Proof.
  apply (batch_completes (H := B64.float_ops Ref.libm) calm_services).
  - apply b64_polite.
  - apply calm_services_polite.
Defined.

(** A collaborator interrupted from the keyboard while it parses the
    latitude. *)
Definition interrupted_services : services float :=
  {| float_of_string := fun _ => inl KeyboardInterrupt;
     strptime := strptime calm_services;
     elevation_api := elevation_api calm_services;
     archive_api := archive_api calm_services;
     archive_url := archive_url calm_services;
     format_coordinates := format_coordinates calm_services;
     json_dumps := json_dumps calm_services;
     file_write := file_write calm_services;
     tiles := sea_net |}.

Lemma interrupt_propagates_witness :
  process_rows (H := B64.float_ops Ref.libm) interrupted_services [full_row; short_row] fresh_run
    = (inl KeyboardInterrupt, fresh_run) /\
  log fresh_run = log fresh_run /\ bar fresh_run = bar fresh_run.
Proof.
  apply (interrupt_propagates (H := B64.float_ops Ref.libm) interrupted_services
           full_row [short_row] fresh_run fresh_run KeyboardInterrupt); reflexivity.
Defined.

Lemma successful_row_writes_one_line_witness :
  exists (text : string) (s2 : run),
    handle_row (H := B64.float_ops Ref.libm) calm_services full_row fresh_run = (inr tt, s2) /\
    out s2 = out fresh_run ++ [(text ++ String (Ascii.ascii_of_nat 10) EmptyString)%string] /\
    log s2 = log fresh_run /\ bar s2 = S (bar fresh_run).
Proof.
  apply (successful_row_writes_one_line (H := B64.float_ops Ref.libm) calm_services
           full_row fresh_run
           (snd (try_row (H := B64.float_ops Ref.libm) calm_services full_row fresh_run))).
  vm_compute. reflexivity.
Defined.
